(** * The race-detector bridge of the Go runtime (src/pkg/runtime/race.c)

    A shallow embedding of the bridge between the goroutine runtime and
    the external race detector.  Every [runtime·race*] entry point becomes
    a computation in a small state-and-trace monad: the state holds the
    fields of [g], [m] and [runtime·mheap] that race.c touches, the trace
    records, in program order, every call into [runtime∕race·*] and every
    store to [m->racecall]. *)

From Stdlib Require Import ZArith List Bool Lia.
Import ListNotations.
Open Scope Z_scope.

(** ** Machine integers *)

(** Value of a signed [w]-bit integer holding [z] after wrap-around. *)
Definition sint (w z : Z) : Z := (z + 2 ^ (w - 1)) mod 2 ^ w - 2 ^ (w - 1).

(** Conversion to [int32], the type of every goroutine-id parameter of the
    detector (race.c, lines 16-29). *)
Definition int32 (z : Z) : Z := sint 32 z.

(** Conversion to [int64], the type of the local [goid] of [memoryaccess]
    and [rangeaccess]. *)
Definition int64 (z : Z) : Z := sint 64 z.

(** [z] is representable on [w] signed bits. *)
Definition fits (w z : Z) : Prop := - 2 ^ (w - 1) <= z < 2 ^ (w - 1).

(** ** Runtime structures, restricted to the fields race.c uses *)

(** Address of a [G] structure. *)
Definition gptr : Type := Z.

Record G : Type := mkG {
  goid : Z;        (* g->goid *)
  raceignore : Z   (* g->raceignore *)
}.

Record M : Type := mkM {
  racecall : bool;       (* m->racecall *)
  curg : option gptr     (* m->curg, None for nil *)
}.

Record MHeap : Type := mkMHeap {
  arena_start : Z;   (* runtime·mheap.arena_start *)
  arena_used : Z     (* runtime·mheap.arena_used *)
}.

(** The part of the machine the bridge reads and writes: the memory
    holding the [G] structures, the registers [g] and [m] of the running
    thread, and the global heap descriptor. *)
Record World : Type := mkWorld {
  Gs : gptr -> G;
  g : gptr;
  m : M;
  mheap : MHeap
}.

(** ** The detector's call contract (race.c, lines 13-29) *)

Inductive detcall : Type :=
| Initialize
| MapShadow (addr size : Z)
| Finalize
| FinalizerGoroutine (id : Z)
| Read (id addr pc : Z)
| Write (id addr pc : Z)
| ReadRange (id addr sz step pc : Z)
| WriteRange (id addr sz step pc : Z)
| FuncEnter (id pc : Z)
| FuncExit (id : Z)
| Malloc (id p sz pc : Z)
| Free (p : Z)
| GoStart (pgoid chgoid pc : Z)
| GoEnd (id : Z)
| Acquire (id addr : Z)
| Release (id addr : Z)
| ReleaseMerge (id addr : Z).

(** What the bridge does that is visible from outside. *)
Inductive action : Type :=
| Det (c : detcall)          (* a call of runtime∕race·c *)
| SetRacecall (b : bool).    (* the store m->racecall = b *)

Definition trace : Type := list action.

(** ** The monad of bridge computations *)

Definition Bridge (A : Type) : Type := World -> A * World * trace.

Definition ret {A : Type} (a : A) : Bridge A := fun w => (a, w, []).

Definition bind {A B : Type} (c : Bridge A) (k : A -> Bridge B) : Bridge B :=
  fun w =>
    match c w with
    | (a, w1, t1) =>
        match k a w1 with
        | (b, w2, t2) => (b, w2, t1 ++ t2)
        end
    end.

Notation "x <- c1 ;; c2" := (bind c1 (fun x => c2))
  (at level 61, c1 at next level, right associativity).
Notation "c1 ;; c2" := (bind c1 (fun _ => c2))
  (at level 61, right associativity).

(** Final state and trace of a computation. *)
Definition world_of {A : Type} (r : A * World * trace) : World := snd (fst r).
Definition trace_of {A : Type} (r : A * World * trace) : trace := snd r.
Definition value_of {A : Type} (r : A * World * trace) : A := fst (fst r).

(** Loads. *)
Definition load_g : Bridge G := fun w => (Gs w (g w), w, []).
Definition load_G (gp : gptr) : Bridge G := fun w => (Gs w gp, w, []).
Definition load_curg : Bridge (option gptr) := fun w => (curg (m w), w, []).
Definition load_mheap : Bridge MHeap := fun w => (mheap w, w, []).

(** Stores. *)
Definition set_racecall (b : bool) (w : World) : World :=
  mkWorld (Gs w) (g w) (mkM b (curg (m w))) (mheap w).

Definition store_racecall (b : bool) : Bridge unit :=
  fun w => (tt, set_racecall b w, [SetRacecall b]).

Definition set_raceignore (v : Z) (w : World) : World :=
  mkWorld
    (fun p => if p =? g w then mkG (goid (Gs w p)) v else Gs w p)
    (g w) (m w) (mheap w).

Definition store_raceignore (v : Z) : Bridge unit :=
  fun w => (tt, set_raceignore v w, []).

(** A call into the detector. *)
Definition call (c : detcall) : Bridge unit := fun w => (tt, w, [Det c]).

(** The detector calls of a trace, in order. *)
Fixpoint detcalls (t : trace) : list detcall :=
  match t with
  | [] => []
  | Det c :: t' => c :: detcalls t'
  | SetRacecall _ :: t' => detcalls t'
  end.

(** Task identifiers a detector call carries. *)
Definition ids_of (c : detcall) : list Z :=
  match c with
  | Initialize | MapShadow _ _ | Finalize | Free _ => []
  | FinalizerGoroutine i | Read i _ _ | Write i _ _
  | ReadRange i _ _ _ _ | WriteRange i _ _ _ _
  | FuncEnter i _ | FuncExit i | Malloc i _ _ _ | GoEnd i
  | Acquire i _ | Release i _ | ReleaseMerge i _ => [i]
  | GoStart p c _ => [p; c]
  end.

(** Enable/Disable toggles, for sequences of nested calls. *)
Inductive toggle : Type := Disable | Enable.

(** Net number of Disable calls of a sequence. *)
Fixpoint balance (l : list toggle) : Z :=
  match l with
  | [] => 0
  | Disable :: l' => 1 + balance l'
  | Enable :: l' => balance l' - 1
  end.

(** Number of calls of one kind in a sequence. *)
Fixpoint calls (k : toggle) (l : list toggle) : Z :=
  match l with
  | [] => 0
  | t :: l' =>
      match k, t with
      | Disable, Disable | Enable, Enable => 1 + calls k l'
      | _, _ => calls k l'
      end
  end.

(** [w'] differs from [w] at most in the [raceignore] field of the
    current goroutine. *)
Definition same_but_raceignore (w w' : World) : Prop :=
  g w' = g w /\ m w' = m w /\ mheap w' = mheap w /\
  (forall p, goid (Gs w' p) = goid (Gs w p)) /\
  (forall p, p <> g w -> Gs w' p = Gs w p).

(** ** Sample machines *)

(** [g] is goroutine 3 at address 100, with a zero ignore counter;
    goroutine 7 at address 200 has called RaceDisable once; [m->curg] is
    goroutine 5 at address 300; the arena is [4096, 8192). *)
Definition sample_Gs (p : gptr) : G :=
  if p =? 100 then mkG 3 0
  else if p =? 200 then mkG 7 1
  else mkG 5 0.

Definition sample_world : World :=
  mkWorld sample_Gs 100 (mkM false (Some 300)) (mkMHeap 4096 8192).

(** The same machine in the middle of a detector call. *)
Definition busy_world : World :=
  mkWorld sample_Gs 100 (mkM true (Some 300)) (mkMHeap 4096 8192).

(** The same machine before any goroutine is scheduled on the thread:
    [m->curg] is nil. *)
Definition early_world : World :=
  mkWorld sample_Gs 100 (mkM false None) (mkMHeap 4096 8192).

(** The same machine with goroutine 7 running on the thread. *)
Definition ignoring_world : World :=
  mkWorld sample_Gs 200 (mkM false (Some 200)) (mkMHeap 4096 8192).

(** A stack walker for the samples: the frame found depends on the number
    of frames skipped only. *)
Definition sample_callers (skip pc : Z) : Z := 600 + skip.

(** A stack walker that finds a null return address. *)
Definition null_callers (skip pc : Z) : Z := 0.

(** ** Further vocabulary *)

(** Value of an unsigned [w]-bit integer holding [z] after wrap-around:
    [uintptr] for [w] the width of a pointer. *)
Definition uint (w z : Z) : Z := z mod 2 ^ w.

(** Replays a trace from a given value of [m->racecall]: true when every
    detector call happens while the flag is true. *)
Fixpoint guarded (flag : bool) (t : trace) : bool :=
  match t with
  | [] => true
  | Det _ :: t' => flag && guarded flag t'
  | SetRacecall b :: t' => guarded b t'
  end.

(** Number of FuncEnter and of FuncExit calls of a trace. *)
Fixpoint enters (t : trace) : Z :=
  match t with
  | [] => 0
  | Det (FuncEnter _ _) :: t' => 1 + enters t'
  | _ :: t' => enters t'
  end.

Fixpoint exits (t : trace) : Z :=
  match t with
  | [] => 0
  | Det (FuncExit _) :: t' => 1 + exits t'
  | _ :: t' => exits t'
  end.

(** The ranged counterpart of a single-address access. *)
Definition ranged (size step : Z) (a : action) : action :=
  match a with
  | Det (Read id addr pc) => Det (ReadRange id addr size step pc)
  | Det (Write id addr pc) => Det (WriteRange id addr size step pc)
  | _ => a
  end.

(** [a] lies in a range handed to MapShadow along the trace. *)
Definition shadowed (t : trace) (a : Z) : Prop :=
  exists addr size, In (Det (MapShadow addr size)) t /\ addr <= a < addr + size.

(** The machine with another heap watermark. *)
Definition set_arena_used (u : Z) (w : World) : World :=
  mkWorld (Gs w) (g w) (m w) (mkMHeap (arena_start (mheap w)) u).

Section Bridge.

(** Link-time constants and runtime services race.c refers to but does not
    define. *)

(** Bounds of the static data: [noptrdata] and [enoptrbss] (lines 31-32). *)
Variable noptrdata : Z.
Variable enoptrbss : Z.

(** Address of [runtime·lessstack]. *)
Variable lessstack : Z.

(** [callers skip pc] is the content of the one-slot buffer after
    [runtime·callers(skip, &buf, 1)] when it held [pc] before. *)
Variable callers : Z -> Z -> Z.

(** Width in bits of the type of [g->raceignore] (declared in runtime.h). *)
Variable ibits : Z.

Definition runtime_callers (skip pc : Z) : Bridge Z :=
  ret (callers skip pc).

(** [onstack] (lines 346-356). *)
Definition onstack (argp : Z) : Bridge bool :=
  mh <- load_mheap ;;
  if (noptrdata <=? argp) && (argp <? enoptrbss) then ret false
  else if (arena_start mh <=? argp) && (argp <? arena_used mh) then ret false
  else ret true.

(** [runtime·racefini] (lines 52-58). *)
Definition racefini : Bridge unit :=
  store_racecall true ;;
  call Finalize ;;
  store_racecall false.

(** [runtime·racemapshadow] (lines 60-66). *)
Definition racemapshadow (addr size : Z) : Bridge unit :=
  store_racecall true ;;
  call (MapShadow addr size) ;;
  store_racecall false.

(** [runtime·racewrite] (lines 71-79); [callerpc] is the value of
    [runtime·getcallerpc(&addr)].  The difference [g->goid-1] is taken in
    the type of the field, 32 bits or more, and converted to the [int32]
    parameter of the detector: [int32 (goid - 1)] in either case. *)
Definition racewrite (addr callerpc : Z) : Bridge unit :=
  s <- onstack addr ;;
  if negb s then
    store_racecall true ;;
    cur <- load_g ;;
    call (Write (int32 (goid cur - 1)) addr callerpc) ;;
    store_racecall false
  else ret tt.

(** [runtime·raceread] (lines 84-92). *)
Definition raceread (addr callerpc : Z) : Bridge unit :=
  s <- onstack addr ;;
  if negb s then
    store_racecall true ;;
    cur <- load_g ;;
    call (Read (int32 (goid cur - 1)) addr callerpc) ;;
    store_racecall false
  else ret tt.

(** [runtime·racefuncenter] (lines 96-110). *)
Definition racefuncenter (pc : Z) : Bridge unit :=
  mh <- load_mheap ;;
  pc1 <- (if (pc =? lessstack)
             || ((arena_start mh <=? pc) && (pc <? arena_used mh))
          then runtime_callers 2 pc
          else ret pc) ;;
  store_racecall true ;;
  cur <- load_g ;;
  call (FuncEnter (int32 (goid cur - 1)) pc1) ;;
  store_racecall false.

(** [runtime·racefuncexit] (lines 114-120). *)
Definition racefuncexit : Bridge unit :=
  store_racecall true ;;
  cur <- load_g ;;
  call (FuncExit (int32 (goid cur - 1))) ;;
  store_racecall false.

(** [runtime·racemalloc] (lines 122-131). *)
Definition racemalloc (p sz pc : Z) : Bridge unit :=
  cg <- load_curg ;;
  match cg with
  | None => ret tt
  | Some cp =>
      store_racecall true ;;
      c <- load_G cp ;;
      call (Malloc (int32 (goid c - 1)) p sz pc) ;;
      store_racecall false
  end.

(** [runtime·racefree] (lines 133-139). *)
Definition racefree (p : Z) : Bridge unit :=
  store_racecall true ;;
  call (Free p) ;;
  store_racecall false.

(** [runtime·racegostart] (lines 141-147); the parameter is an [int32]. *)
Definition racegostart (chgoid pc : Z) : Bridge unit :=
  store_racecall true ;;
  cur <- load_g ;;
  call (GoStart (int32 (goid cur - 1)) (int32 (chgoid - 1)) pc) ;;
  store_racecall false.

(** [runtime·racegoend] (lines 149-155). *)
Definition racegoend (id : Z) : Bridge unit :=
  store_racecall true ;;
  call (GoEnd (int32 (id - 1))) ;;
  store_racecall false.

(** [memoryaccess] (lines 157-179).  [runtime·callers] writes through
    [&callpc], so the second test of [callpc] sees the unwound value. *)
Definition memoryaccess (addr callpc pc : Z) (write : bool) : Bridge unit :=
  s <- onstack addr ;;
  if negb s then
    store_racecall true ;;
    cur <- load_g ;;
    let id := int64 (goid cur - 1) in
    callpc1 <-
      (if negb (callpc =? 0) then
         mh <- load_mheap ;;
         callpc0 <- (if (callpc =? lessstack)
                        || ((arena_start mh <=? callpc)
                            && (callpc <? arena_used mh))
                     then runtime_callers 3 callpc
                     else ret callpc) ;;
         call (FuncEnter (int32 id) callpc0) ;;
         ret callpc0
       else ret callpc) ;;
    (if write then call (Write (int32 id) addr pc)
     else call (Read (int32 id) addr pc)) ;;
    (if negb (callpc1 =? 0) then call (FuncExit (int32 id)) else ret tt) ;;
    store_racecall false
  else ret tt.

(** [runtime·racewritepc], [runtime·racereadpc] (lines 181-191). *)
Definition racewritepc (addr callpc pc : Z) : Bridge unit :=
  memoryaccess addr callpc pc true.

Definition racereadpc (addr callpc pc : Z) : Bridge unit :=
  memoryaccess addr callpc pc false.

(** [rangeaccess] (lines 193-215). *)
Definition rangeaccess (addr size step callpc pc : Z) (write : bool)
  : Bridge unit :=
  s <- onstack addr ;;
  if negb s then
    store_racecall true ;;
    cur <- load_g ;;
    let id := int64 (goid cur - 1) in
    callpc1 <-
      (if negb (callpc =? 0) then
         mh <- load_mheap ;;
         callpc0 <- (if (callpc =? lessstack)
                        || ((arena_start mh <=? callpc)
                            && (callpc <? arena_used mh))
                     then runtime_callers 3 callpc
                     else ret callpc) ;;
         call (FuncEnter (int32 id) callpc0) ;;
         ret callpc0
       else ret callpc) ;;
    (if write then call (WriteRange (int32 id) addr size step pc)
     else call (ReadRange (int32 id) addr size step pc)) ;;
    (if negb (callpc1 =? 0) then call (FuncExit (int32 id)) else ret tt) ;;
    store_racecall false
  else ret tt.

(** [runtime·racewriterangepc], [runtime·racereadrangepc]
    (lines 217-227). *)
Definition racewriterangepc (addr sz step callpc pc : Z) : Bridge unit :=
  rangeaccess addr sz step callpc pc true.

Definition racereadrangepc (addr sz step callpc pc : Z) : Bridge unit :=
  rangeaccess addr sz step callpc pc false.

(** [runtime·raceacquireg] (lines 235-243): the test reads [g], the
    identifier comes from [gp]. *)
Definition raceacquireg (gp : gptr) (addr : Z) : Bridge unit :=
  cur <- load_g ;;
  if negb (raceignore cur =? 0) then ret tt
  else
    store_racecall true ;;
    t <- load_G gp ;;
    call (Acquire (int32 (goid t - 1)) addr) ;;
    store_racecall false.

(** [runtime·raceacquire] (lines 229-233). *)
Definition raceacquire (addr : Z) : Bridge unit :=
  fun w => raceacquireg (g w) addr w.

(** [runtime·racereleaseg] (lines 251-259). *)
Definition racereleaseg (gp : gptr) (addr : Z) : Bridge unit :=
  cur <- load_g ;;
  if negb (raceignore cur =? 0) then ret tt
  else
    store_racecall true ;;
    t <- load_G gp ;;
    call (Release (int32 (goid t - 1)) addr) ;;
    store_racecall false.

(** [runtime·racerelease] (lines 245-249). *)
Definition racerelease (addr : Z) : Bridge unit :=
  fun w => racereleaseg (g w) addr w.

(** [runtime·racereleasemergeg] (lines 267-275). *)
Definition racereleasemergeg (gp : gptr) (addr : Z) : Bridge unit :=
  cur <- load_g ;;
  if negb (raceignore cur =? 0) then ret tt
  else
    store_racecall true ;;
    t <- load_G gp ;;
    call (ReleaseMerge (int32 (goid t - 1)) addr) ;;
    store_racecall false.

(** [runtime·racereleasemerge] (lines 261-265). *)
Definition racereleasemerge (addr : Z) : Bridge unit :=
  fun w => racereleasemergeg (g w) addr w.

(** [runtime·racefingo] (lines 277-283). *)
Definition racefingo : Bridge unit :=
  store_racecall true ;;
  cur <- load_g ;;
  call (FinalizerGoroutine (int32 (goid cur - 1))) ;;
  store_racecall false.

(** [runtime·RaceAcquire], [runtime·RaceRelease],
    [runtime·RaceReleaseMerge] (lines 285-304). *)
Definition RaceAcquire (addr : Z) : Bridge unit := raceacquire addr.
Definition RaceRelease (addr : Z) : Bridge unit := racerelease addr.
Definition RaceReleaseMerge (addr : Z) : Bridge unit := racereleasemerge addr.

(** [runtime·RaceRead], [runtime·RaceWrite] (lines 318-332). *)
Definition RaceRead (addr callerpc : Z) : Bridge unit :=
  memoryaccess addr 0 callerpc false.

Definition RaceWrite (addr callerpc : Z) : Bridge unit :=
  memoryaccess addr 0 callerpc true.

(** [runtime·RaceDisable] (lines 334-338). *)
Definition RaceDisable : Bridge unit :=
  cur <- load_g ;;
  store_raceignore (sint ibits (raceignore cur + 1)).

(** [runtime·RaceEnable] (lines 340-344). *)
Definition RaceEnable : Bridge unit :=
  cur <- load_g ;;
  store_raceignore (sint ibits (raceignore cur - 1)).

(** Sequences of RaceDisable and RaceEnable calls. *)
Definition toggle_run (t : toggle) : Bridge unit :=
  match t with
  | Disable => RaceDisable
  | Enable => RaceEnable
  end.

Fixpoint toggles (l : list toggle) : Bridge unit :=
  match l with
  | [] => ret tt
  | t :: l' => toggle_run t ;; toggles l'
  end.

(** ** The specification's vocabulary *)

(** An address is tracked when it lies in the static data or in the used
    part of the heap arena. *)
Definition tracked (w : World) (a : Z) : Prop :=
  noptrdata <= a < enoptrbss \/
  arena_start (mheap w) <= a < arena_used (mheap w).

(** A caller pc must be unwound when it is the stack-growth trampoline or
    lies in the used part of the heap arena. *)
Definition synthetic_pc (w : World) (pc : Z) : Prop :=
  pc = lessstack \/ arena_start (mheap w) <= pc < arena_used (mheap w).

(** The Call-Stack Resolver: unwind [skip] frames for a synthetic pc, keep
    any other. *)
Definition resolved_pc (w : World) (skip pc : Z) : Z :=
  if (pc =? lessstack)
     || ((arena_start (mheap w) <=? pc) && (pc <? arena_used (mheap w)))
  then callers skip pc
  else pc.

(** The [G] structure of the goroutine running on the thread. *)
Definition curG (w : World) : G := Gs w (g w).

(** The bracket every forwarding entry point puts around its detector
    calls. *)
Definition bracket (cs : list detcall) : trace :=
  SetRacecall true :: map Det cs ++ [SetRacecall false].

(** Detector calls of a combined access: the access alone when no caller
    pc is given, else FuncEnter with the resolved pc [r], the access, and
    FuncExit unless [r] is null. *)
Definition framed_calls (id callpc r : Z) (access : detcall) : list detcall :=
  if callpc =? 0 then [access]
  else FuncEnter id r :: access :: (if r =? 0 then [] else [FuncExit id]).

(** Entry points of the bridge, as one type. *)
Inductive entry : Type :=
| E_racefini
| E_racemapshadow (addr size : Z)
| E_racewrite (addr callerpc : Z)
| E_raceread (addr callerpc : Z)
| E_racefuncenter (pc : Z)
| E_racefuncexit
| E_racemalloc (p sz pc : Z)
| E_racefree (p : Z)
| E_racegostart (chgoid pc : Z)
| E_racegoend (id : Z)
| E_racewritepc (addr callpc pc : Z)
| E_racereadpc (addr callpc pc : Z)
| E_racewriterangepc (addr sz step callpc pc : Z)
| E_racereadrangepc (addr sz step callpc pc : Z)
| E_raceacquire (addr : Z)
| E_raceacquireg (gp : gptr) (addr : Z)
| E_racerelease (addr : Z)
| E_racereleaseg (gp : gptr) (addr : Z)
| E_racereleasemerge (addr : Z)
| E_racereleasemergeg (gp : gptr) (addr : Z)
| E_racefingo
| E_RaceAcquire (addr : Z)
| E_RaceRelease (addr : Z)
| E_RaceReleaseMerge (addr : Z)
| E_RaceRead (addr callerpc : Z)
| E_RaceWrite (addr callerpc : Z)
| E_RaceDisable
| E_RaceEnable.

Definition enter (e : entry) : Bridge unit :=
  match e with
  | E_racefini => racefini
  | E_racemapshadow addr size => racemapshadow addr size
  | E_racewrite addr callerpc => racewrite addr callerpc
  | E_raceread addr callerpc => raceread addr callerpc
  | E_racefuncenter pc => racefuncenter pc
  | E_racefuncexit => racefuncexit
  | E_racemalloc p sz pc => racemalloc p sz pc
  | E_racefree p => racefree p
  | E_racegostart chgoid pc => racegostart chgoid pc
  | E_racegoend id => racegoend id
  | E_racewritepc addr callpc pc => racewritepc addr callpc pc
  | E_racereadpc addr callpc pc => racereadpc addr callpc pc
  | E_racewriterangepc addr sz step callpc pc =>
      racewriterangepc addr sz step callpc pc
  | E_racereadrangepc addr sz step callpc pc =>
      racereadrangepc addr sz step callpc pc
  | E_raceacquire addr => raceacquire addr
  | E_raceacquireg gp addr => raceacquireg gp addr
  | E_racerelease addr => racerelease addr
  | E_racereleaseg gp addr => racereleaseg gp addr
  | E_racereleasemerge addr => racereleasemerge addr
  | E_racereleasemergeg gp addr => racereleasemergeg gp addr
  | E_racefingo => racefingo
  | E_RaceAcquire addr => RaceAcquire addr
  | E_RaceRelease addr => RaceRelease addr
  | E_RaceReleaseMerge addr => RaceReleaseMerge addr
  | E_RaceRead addr callerpc => RaceRead addr callerpc
  | E_RaceWrite addr callerpc => RaceWrite addr callerpc
  | E_RaceDisable => RaceDisable
  | E_RaceEnable => RaceEnable
  end.

(** Internal goroutine identifiers an entry point can read: those of [g]
    and of [m->curg], of the [G] it is passed, and the ones it is passed
    by value. *)
Definition internal_ids (e : entry) (w : World) : list Z :=
  let passed :=
    match e with
    | E_racegostart chgoid _ => [chgoid]
    | E_racegoend id => [id]
    | E_raceacquireg gp _ | E_racereleaseg gp _
    | E_racereleasemergeg gp _ => [goid (Gs w gp)]
    | _ => []
    end in
  let current :=
    match curg (m w) with
    | Some cp => [goid (Gs w cp)]
    | None => []
    end in
  goid (curG w) :: current ++ passed.

(** Task identifiers reported to the detector along a trace. *)
Definition reported_ids (t : trace) : list Z := flat_map ids_of (detcalls t).

(** ** Start-up, and sequences of entry points *)

(** Addresses of [runtime·mheap] and of the byte after it
    ([&runtime·mheap+1]), and the width in bits of [uintptr]. *)
Variable mheap_addr : Z.
Variable mheap_end : Z.
Variable ptrbits : Z.

(** [runtime·raceinit] (lines 36-50). *)
Definition raceinit : Bridge unit :=
  store_racecall true ;;
  call Initialize ;;
  let sz := uint ptrbits (mheap_addr - noptrdata) in
  (if negb (sz =? 0) then call (MapShadow noptrdata sz) else ret tt) ;;
  let sz := uint ptrbits (enoptrbss - mheap_end) in
  (if negb (sz =? 0) then call (MapShadow mheap_end sz) else ret tt) ;;
  store_racecall false.

(** Entry points called one after the other. *)
Fixpoint enter_all (es : list entry) : Bridge unit :=
  match es with
  | [] => ret tt
  | e :: es' => enter e ;; enter_all es'
  end.

(** The entry points that test [g->raceignore]. *)
Definition tests_raceignore (e : entry) : bool :=
  match e with
  | E_raceacquire _ | E_raceacquireg _ _
  | E_racerelease _ | E_racereleaseg _ _
  | E_racereleasemerge _ | E_racereleasemergeg _ _
  | E_RaceAcquire _ | E_RaceRelease _ | E_RaceReleaseMerge _ => true
  | _ => false
  end.

(** The entry points that store to [g->raceignore]. *)
Definition stores_raceignore (e : entry) : bool :=
  match e with
  | E_RaceDisable | E_RaceEnable => true
  | _ => false
  end.

(** ** Arithmetic of wrap-around *)

Lemma pow2_double (w : Z) : 0 < w -> 2 ^ w = 2 * 2 ^ (w - 1).
Proof.
  intros Hw. replace w with (Z.succ (w - 1)) at 1 by lia.
  apply Z.pow_succ_r. lia.
Qed.

Lemma sint_fits (w z : Z) : 0 < w -> fits w z -> sint w z = z.
Proof.
  unfold fits, sint. intros Hw Hz.
  rewrite (pow2_double w Hw). rewrite Z.mod_small; lia.
Qed.

Lemma sint_range (w z : Z) : 0 < w -> fits w (sint w z).
Proof.
  unfold fits, sint. intros Hw.
  assert (Hp : 0 < 2 ^ (w - 1)) by (apply Z.pow_pos_nonneg; lia).
  pose proof (Z.mod_pos_bound (z + 2 ^ (w - 1)) (2 ^ w)) as Hb.
  rewrite (pow2_double w Hw) in *. lia.
Qed.

Lemma sint_add (w a b : Z) : sint w (sint w a + b) = sint w (a + b).
Proof.
  unfold sint.
  replace ((a + 2 ^ (w - 1)) mod 2 ^ w - 2 ^ (w - 1) + b + 2 ^ (w - 1))
    with ((a + 2 ^ (w - 1)) mod 2 ^ w + b) by ring.
  rewrite Zplus_mod_idemp_l. do 2 f_equal. ring.
Qed.

Lemma sint_idem (w a : Z) : sint w (sint w a) = sint w a.
Proof.
  rewrite <- (Z.add_0_r (sint w a)) at 1.
  rewrite sint_add. now rewrite Z.add_0_r.
Qed.

Lemma int32_int64 (z : Z) : int32 (int64 z) = int32 z.
Proof.
  unfold int32, int64, sint. f_equal.
  change (2 ^ (64 - 1)) with 9223372036854775808.
  change (2 ^ 64) with 18446744073709551616.
  change (2 ^ (32 - 1)) with 2147483648.
  change (2 ^ 32) with 4294967296.
  rewrite (Z.mod_eq (z + 9223372036854775808) 18446744073709551616) by lia.
  set (q := (z + 9223372036854775808) / 18446744073709551616).
  replace (z + 9223372036854775808 - 18446744073709551616 * q
           - 9223372036854775808 + 2147483648)
    with (z + 2147483648 + (- (4294967296 * q)) * 4294967296) by ring.
  apply Z_mod_plus_full.
Qed.

Lemma int32_exact (z : Z) : fits 32 z -> int32 z = z.
Proof. apply sint_fits. lia. Qed.

(** ** The address classifier *)

Lemma onstack_run (a : Z) (w : World) :
  onstack a w = (value_of (onstack a w), w, []).
Proof.
  unfold onstack, bind, load_mheap, ret, value_of.
  destruct ((noptrdata <=? a) && (a <? enoptrbss)); [reflexivity|].
  destruct ((arena_start (mheap w) <=? a) && (a <? arena_used (mheap w)));
    reflexivity.
Qed.

Lemma onstack_false_iff (a : Z) (w : World) :
  value_of (onstack a w) = false <-> tracked w a.
Proof.
  unfold onstack, bind, load_mheap, ret, value_of, tracked.
  destruct ((noptrdata <=? a) && (a <? enoptrbss)) eqn:E1; cbn.
  - apply andb_true_iff in E1. split; [intros _; left; lia | reflexivity].
  - destruct ((arena_start (mheap w) <=? a) && (a <? arena_used (mheap w)))
      eqn:E2; cbn.
    + apply andb_true_iff in E2. split; [intros _; right; lia | reflexivity].
    + apply andb_false_iff in E1. apply andb_false_iff in E2.
      split; [discriminate | intros H; exfalso; lia].
Qed.

Lemma onstack_true_iff (a : Z) (w : World) :
  value_of (onstack a w) = true <-> ~ tracked w a.
Proof.
  rewrite <- onstack_false_iff.
  destruct (value_of (onstack a w)); split; congruence.
Qed.

Lemma onstack_tracked (a : Z) (w : World) :
  tracked w a -> onstack a w = (false, w, []).
Proof.
  intros H. rewrite onstack_run.
  apply onstack_false_iff in H. now rewrite H.
Qed.

Lemma onstack_untracked (a : Z) (w : World) :
  ~ tracked w a -> onstack a w = (true, w, []).
Proof.
  intros H. rewrite onstack_run.
  apply onstack_true_iff in H. now rewrite H.
Qed.

(** Claim C4.  The address classifier is a pure range test: it leaves the
    machine as it found it and calls nothing, and it answers "not on the
    stack" exactly for the addresses inside the static data
    [noptrdata, enoptrbss) or inside the used part of the heap arena
    [arena_start, arena_used); every other address is answered "stack". *)
Theorem onstack_is_pure_range_test (a : Z) (w : World) :
  world_of (onstack a w) = w /\
  trace_of (onstack a w) = [] /\
  (value_of (onstack a w) = false <->
     noptrdata <= a < enoptrbss \/
     arena_start (mheap w) <= a < arena_used (mheap w)) /\
  (value_of (onstack a w) = true <->
     ~ (noptrdata <= a < enoptrbss \/
        arena_start (mheap w) <= a < arena_used (mheap w))).
Proof.
  rewrite (onstack_run a w) at 1 2.
  repeat split; try apply onstack_false_iff; try apply onstack_true_iff.
Qed.

(** ** Plain read and write probes *)

Lemma raceread_tracked (addr pc : Z) (w : World) :
  tracked w addr ->
  raceread addr pc w =
    (tt, set_racecall false w,
     bracket [Read (int32 (goid (curG w) - 1)) addr pc]).
Proof.
  intros H. unfold raceread, bind. now rewrite (onstack_tracked _ _ H).
Qed.

Lemma racewrite_tracked (addr pc : Z) (w : World) :
  tracked w addr ->
  racewrite addr pc w =
    (tt, set_racecall false w,
     bracket [Write (int32 (goid (curG w) - 1)) addr pc]).
Proof.
  intros H. unfold racewrite, bind. now rewrite (onstack_tracked _ _ H).
Qed.

Lemma raceread_untracked (addr pc : Z) (w : World) :
  ~ tracked w addr -> raceread addr pc w = (tt, w, []).
Proof.
  intros H. unfold raceread, bind. now rewrite (onstack_untracked _ _ H).
Qed.

Lemma racewrite_untracked (addr pc : Z) (w : World) :
  ~ tracked w addr -> racewrite addr pc w = (tt, w, []).
Proof.
  intros H. unfold racewrite, bind. now rewrite (onstack_untracked _ _ H).
Qed.

(** Claim C1.  A Read or Write probe on an address the classifier reports
    as stack returns at once: empty trace (no detector call, no store to
    the in-bridge flag) and unchanged machine.  On a tracked address the
    trace is exactly: store true to the flag, one detector Read (resp.
    Write) with the identifier [g->goid - 1] converted to the detector's
    [int32], the address and the captured caller pc, store false to the
    flag; the flag is false on return.  The identifier is [goid - 1]
    itself whenever that value is an [int32]. *)
Theorem read_write_probe (addr pc : Z) (w : World) :
  (value_of (onstack addr w) = true ->
     raceread addr pc w = (tt, w, []) /\
     racewrite addr pc w = (tt, w, [])) /\
  (value_of (onstack addr w) = false ->
     trace_of (raceread addr pc w) =
       [SetRacecall true;
        Det (Read (int32 (goid (curG w) - 1)) addr pc);
        SetRacecall false] /\
     trace_of (racewrite addr pc w) =
       [SetRacecall true;
        Det (Write (int32 (goid (curG w) - 1)) addr pc);
        SetRacecall false] /\
     world_of (raceread addr pc w) = set_racecall false w /\
     world_of (racewrite addr pc w) = set_racecall false w /\
     racecall (m (world_of (raceread addr pc w))) = false /\
     racecall (m (world_of (racewrite addr pc w))) = false /\
     (fits 32 (goid (curG w) - 1) ->
        int32 (goid (curG w) - 1) = goid (curG w) - 1)).
Proof.
  split; intros H.
  - apply onstack_true_iff in H.
    now rewrite raceread_untracked, racewrite_untracked.
  - apply onstack_false_iff in H.
    rewrite raceread_tracked, racewrite_tracked by assumption.
    repeat split. apply int32_exact.
Qed.

(** ** Combined access forms *)

Lemma memoryaccess_untracked (addr callpc pc : Z) (write : bool) (w : World) :
  ~ tracked w addr -> memoryaccess addr callpc pc write w = (tt, w, []).
Proof.
  intros H. unfold memoryaccess, bind. now rewrite (onstack_untracked _ _ H).
Qed.

Lemma memoryaccess_tracked (addr callpc pc : Z) (write : bool) (w : World) :
  tracked w addr ->
  memoryaccess addr callpc pc write w =
    (tt, set_racecall false w,
     bracket
       (framed_calls (int32 (goid (curG w) - 1)) callpc (resolved_pc w 3 callpc)
          (if write then Write (int32 (goid (curG w) - 1)) addr pc
           else Read (int32 (goid (curG w) - 1)) addr pc))).
Proof.
  intros H. unfold memoryaccess, bind. rewrite (onstack_tracked _ _ H).
  unfold framed_calls, resolved_pc, runtime_callers, curG. cbn.
  rewrite int32_int64.
  destruct (callpc =? 0) eqn:E; cbn.
  - rewrite E. destruct write; reflexivity.
  - destruct ((callpc =? lessstack)
              || ((arena_start (mheap w) <=? callpc)
                  && (callpc <? arena_used (mheap w)))); cbn.
    + destruct (callers 3 callpc =? 0); destruct write; reflexivity.
    + rewrite E. destruct write; reflexivity.
Qed.

Lemma rangeaccess_untracked (addr size step callpc pc : Z) (write : bool)
    (w : World) :
  ~ tracked w addr ->
  rangeaccess addr size step callpc pc write w = (tt, w, []).
Proof.
  intros H. unfold rangeaccess, bind. now rewrite (onstack_untracked _ _ H).
Qed.

Lemma rangeaccess_tracked (addr size step callpc pc : Z) (write : bool)
    (w : World) :
  tracked w addr ->
  rangeaccess addr size step callpc pc write w =
    (tt, set_racecall false w,
     bracket
       (framed_calls (int32 (goid (curG w) - 1)) callpc (resolved_pc w 3 callpc)
          (if write
           then WriteRange (int32 (goid (curG w) - 1)) addr size step pc
           else ReadRange (int32 (goid (curG w) - 1)) addr size step pc))).
Proof.
  intros H. unfold rangeaccess, bind. rewrite (onstack_tracked _ _ H).
  unfold framed_calls, resolved_pc, runtime_callers, curG. cbn.
  rewrite int32_int64.
  destruct (callpc =? 0) eqn:E; cbn.
  - rewrite E. destruct write; reflexivity.
  - destruct ((callpc =? lessstack)
              || ((arena_start (mheap w) <=? callpc)
                  && (callpc <? arena_used (mheap w)))); cbn.
    + destruct (callers 3 callpc =? 0); destruct write; reflexivity.
    + rewrite E. destruct write; reflexivity.
Qed.

(** When the walker writes a null pc into [callpc], the second test of
    [callpc] fails and FuncExit is not issued. *)
Lemma memoryaccess_null_unwind (addr callpc pc : Z) (w : World) :
  tracked w addr -> callpc <> 0 -> resolved_pc w 3 callpc = 0 ->
  detcalls (trace_of (memoryaccess addr callpc pc false w)) =
    [FuncEnter (int32 (goid (curG w) - 1)) 0;
     Read (int32 (goid (curG w) - 1)) addr pc].
Proof.
  intros Ht Hc Hr. rewrite memoryaccess_tracked by assumption.
  unfold framed_calls. rewrite Hr.
  apply Z.eqb_neq in Hc. rewrite Hc. reflexivity.
Qed.

(** ** Function entry *)

Lemma racefuncenter_run (pc : Z) (w : World) :
  racefuncenter pc w =
    (tt, set_racecall false w,
     bracket [FuncEnter (int32 (goid (curG w) - 1)) (resolved_pc w 2 pc)]).
Proof.
  unfold racefuncenter, resolved_pc, bind, load_mheap, runtime_callers. cbn.
  destruct ((pc =? lessstack)
            || ((arena_start (mheap w) <=? pc) && (pc <? arena_used (mheap w))));
    reflexivity.
Qed.

Lemma resolved_pc_synthetic (skip pc : Z) (w : World) :
  synthetic_pc w pc -> resolved_pc w skip pc = callers skip pc.
Proof.
  unfold synthetic_pc, resolved_pc. intros [H | H].
  - subst pc. now rewrite Z.eqb_refl.
  - replace (arena_start (mheap w) <=? pc) with true
      by (symmetry; apply Z.leb_le; lia).
    replace (pc <? arena_used (mheap w)) with true
      by (symmetry; apply Z.ltb_lt; lia).
    now rewrite orb_true_r.
Qed.

Lemma resolved_pc_genuine (skip pc : Z) (w : World) :
  ~ synthetic_pc w pc -> resolved_pc w skip pc = pc.
Proof.
  unfold synthetic_pc, resolved_pc. intros H.
  destruct (Z.eqb_spec pc lessstack); [tauto|].
  destruct (Z.leb_spec (arena_start (mheap w)) pc);
    destruct (Z.ltb_spec pc (arena_used (mheap w))); cbn; try reflexivity.
  exfalso. apply H. right. lia.
Qed.

(** Claim C5.  Every caller pc that reaches the detector has been
    resolved first.  FuncEnter ([racefuncenter]): a pc equal to the
    stack-growth trampoline [lessstack] or inside the used heap arena
    [arena_start, arena_used) is replaced by what the stack walker finds
    two frames up, any other pc is forwarded unchanged.  Combined forms
    ([memoryaccess], [rangeaccess]) with a non-zero callerPC on a tracked
    address: the first detector call is FuncEnter, and its pc is the
    walker's answer three frames up for a trampoline or arena callerPC,
    the callerPC itself otherwise. *)
Theorem caller_pc_resolved_before_forwarding
    (pc addr size step callpc apc : Z) (write : bool) (w : World) :
  let id := int32 (goid (curG w) - 1) in
  ((pc = lessstack \/ arena_start (mheap w) <= pc < arena_used (mheap w)) ->
     trace_of (racefuncenter pc w) =
       [SetRacecall true; Det (FuncEnter id (callers 2 pc));
        SetRacecall false]) /\
  (~ (pc = lessstack \/ arena_start (mheap w) <= pc < arena_used (mheap w)) ->
     trace_of (racefuncenter pc w) =
       [SetRacecall true; Det (FuncEnter id pc); SetRacecall false]) /\
  (tracked w addr -> callpc <> 0 ->
   (callpc = lessstack \/
    arena_start (mheap w) <= callpc < arena_used (mheap w)) ->
     hd_error (detcalls (trace_of (memoryaccess addr callpc apc write w))) =
       Some (FuncEnter id (callers 3 callpc)) /\
     hd_error
       (detcalls (trace_of (rangeaccess addr size step callpc apc write w))) =
       Some (FuncEnter id (callers 3 callpc))) /\
  (tracked w addr -> callpc <> 0 ->
   ~ (callpc = lessstack \/
      arena_start (mheap w) <= callpc < arena_used (mheap w)) ->
     hd_error (detcalls (trace_of (memoryaccess addr callpc apc write w))) =
       Some (FuncEnter id callpc) /\
     hd_error
       (detcalls (trace_of (rangeaccess addr size step callpc apc write w))) =
       Some (FuncEnter id callpc)).
Proof.
  intros id. repeat split; intros.
  - rewrite racefuncenter_run, resolved_pc_synthetic by assumption.
    reflexivity.
  - rewrite racefuncenter_run, resolved_pc_genuine by assumption.
    reflexivity.
  - rewrite memoryaccess_tracked, resolved_pc_synthetic by assumption.
    unfold framed_calls. apply Z.eqb_neq in H0. now rewrite H0.
  - rewrite rangeaccess_tracked, resolved_pc_synthetic by assumption.
    unfold framed_calls. apply Z.eqb_neq in H0. now rewrite H0.
  - rewrite memoryaccess_tracked, resolved_pc_genuine by assumption.
    unfold framed_calls. apply Z.eqb_neq in H0. now rewrite H0.
  - rewrite rangeaccess_tracked, resolved_pc_genuine by assumption.
    unfold framed_calls. apply Z.eqb_neq in H0. now rewrite H0.
Qed.


(** ** The in-bridge flag is written, never read *)

Lemma tracked_set_racecall (b : bool) (a : Z) (w : World) :
  tracked (set_racecall b w) a <-> tracked w a.
Proof. reflexivity. Qed.

Lemma tracked_dec (a : Z) (w : World) : tracked w a \/ ~ tracked w a.
Proof.
  destruct (value_of (onstack a w)) eqn:E.
  - right. now apply onstack_true_iff.
  - left. now apply onstack_false_iff.
Qed.

(** Claim C2, as the code has it.  No probe consults the in-bridge flag.
    An access arriving while the flag is already true is not skipped: on
    a tracked address the Read and Write probes still issue their
    detector call, the combined forms still issue theirs, and the probe
    returns with the flag false; the trace of a probe is the same
    whatever the flag was on entry.  Only the address classifier makes a
    probe skip an access. *)
Theorem probes_do_not_read_racecall
    (b : bool) (addr size step callpc pc : Z) (write : bool) (w : World) :
  trace_of (raceread addr pc (set_racecall b w)) =
    trace_of (raceread addr pc w) /\
  trace_of (racewrite addr pc (set_racecall b w)) =
    trace_of (racewrite addr pc w) /\
  trace_of (memoryaccess addr callpc pc write (set_racecall b w)) =
    trace_of (memoryaccess addr callpc pc write w) /\
  trace_of (rangeaccess addr size step callpc pc write (set_racecall b w)) =
    trace_of (rangeaccess addr size step callpc pc write w) /\
  (racecall (m w) = true -> tracked w addr ->
     detcalls (trace_of (raceread addr pc w)) =
       [Read (int32 (goid (curG w) - 1)) addr pc] /\
     detcalls (trace_of (racewrite addr pc w)) =
       [Write (int32 (goid (curG w) - 1)) addr pc] /\
     detcalls (trace_of (memoryaccess addr callpc pc write w)) <> [] /\
     detcalls (trace_of (rangeaccess addr size step callpc pc write w))
       <> [] /\
     racecall (m (world_of (raceread addr pc w))) = false /\
     racecall (m (world_of (racewrite addr pc w))) = false /\
     racecall (m (world_of (memoryaccess addr callpc pc write w))) = false /\
     racecall
       (m (world_of (rangeaccess addr size step callpc pc write w))) = false).
Proof.
  destruct (tracked_dec addr w) as [Ht | Hu].
  - assert (Ht' : tracked (set_racecall b w) addr) by exact Ht.
    rewrite !raceread_tracked, !racewrite_tracked, !memoryaccess_tracked,
      !rangeaccess_tracked by assumption.
    repeat split; unfold framed_calls;
      destruct (callpc =? 0); destruct write; discriminate.
  - assert (Hu' : ~ tracked (set_racecall b w) addr) by exact Hu.
    rewrite !raceread_untracked, !racewrite_untracked,
      !memoryaccess_untracked, !rangeaccess_untracked by assumption.
    repeat split; intros; contradiction.
Qed.

(** ** Synchronisation events *)

Lemma raceacquireg_run (gp : gptr) (addr : Z) (w : World) :
  raceacquireg gp addr w =
    if raceignore (curG w) =? 0
    then (tt, set_racecall false w,
          bracket [Acquire (int32 (goid (Gs w gp) - 1)) addr])
    else (tt, w, []).
Proof.
  unfold raceacquireg, bind, load_g, curG.
  destruct (raceignore (Gs w (g w)) =? 0); reflexivity.
Qed.

Lemma racereleaseg_run (gp : gptr) (addr : Z) (w : World) :
  racereleaseg gp addr w =
    if raceignore (curG w) =? 0
    then (tt, set_racecall false w,
          bracket [Release (int32 (goid (Gs w gp) - 1)) addr])
    else (tt, w, []).
Proof.
  unfold racereleaseg, bind, load_g, curG.
  destruct (raceignore (Gs w (g w)) =? 0); reflexivity.
Qed.

Lemma racereleasemergeg_run (gp : gptr) (addr : Z) (w : World) :
  racereleasemergeg gp addr w =
    if raceignore (curG w) =? 0
    then (tt, set_racecall false w,
          bracket [ReleaseMerge (int32 (goid (Gs w gp) - 1)) addr])
    else (tt, w, []).
Proof.
  unfold racereleasemergeg, bind, load_g, curG.
  destruct (raceignore (Gs w (g w)) =? 0); reflexivity.
Qed.

(** Claim C3, as the code has it.  Whether Acquire, Release or
    ReleaseMerge is forwarded is decided by the ignore counter of the
    goroutine running on the thread ([g]), not by that of the goroutine
    the call is made for ([gp]): non-zero, in particular greater than
    zero, means nothing is forwarded and nothing changes; zero means
    exactly one detector call, bracketed by the flag, carrying the
    identifier [gp->goid - 1] and the address.  For the entry points
    without a goroutine argument the two goroutines are the same one. *)
Theorem sync_events_gated_by_running_goroutine
    (gp : gptr) (addr : Z) (w : World) :
  (raceignore (curG w) <> 0 ->
     raceacquireg gp addr w = (tt, w, []) /\
     racereleaseg gp addr w = (tt, w, []) /\
     racereleasemergeg gp addr w = (tt, w, [])) /\
  (raceignore (curG w) = 0 ->
     trace_of (raceacquireg gp addr w) =
       [SetRacecall true; Det (Acquire (int32 (goid (Gs w gp) - 1)) addr);
        SetRacecall false] /\
     trace_of (racereleaseg gp addr w) =
       [SetRacecall true; Det (Release (int32 (goid (Gs w gp) - 1)) addr);
        SetRacecall false] /\
     trace_of (racereleasemergeg gp addr w) =
       [SetRacecall true;
        Det (ReleaseMerge (int32 (goid (Gs w gp) - 1)) addr);
        SetRacecall false]) /\
  raceacquire addr w = raceacquireg (g w) addr w /\
  racerelease addr w = racereleaseg (g w) addr w /\
  racereleasemerge addr w = racereleasemergeg (g w) addr w /\
  (fits 32 (goid (Gs w gp) - 1) ->
     int32 (goid (Gs w gp) - 1) = goid (Gs w gp) - 1).
Proof.
  rewrite raceacquireg_run, racereleaseg_run, racereleasemergeg_run.
  repeat split; try apply int32_exact.
  1-3: apply Z.eqb_neq in H; now rewrite H.
  all: rewrite H; reflexivity.
Qed.

(** ** Allocation *)

(** Claim C7.  The Malloc hook with no current goroutine on the thread
    ([m->curg] nil) drops the event: no detector call, no store, machine
    unchanged.  Otherwise it issues exactly one detector Malloc carrying
    [m->curg->goid - 1], the address, the size and the pc, whatever the
    address is: the address classifier is not consulted, so a stack
    address is forwarded too. *)
Theorem malloc_hook (p sz pc : Z) (w : World) :
  (curg (m w) = None -> racemalloc p sz pc w = (tt, w, [])) /\
  (forall cp, curg (m w) = Some cp ->
     racemalloc p sz pc w =
       (tt, set_racecall false w,
        [SetRacecall true;
         Det (Malloc (int32 (goid (Gs w cp) - 1)) p sz pc);
         SetRacecall false]) /\
     (fits 32 (goid (Gs w cp) - 1) ->
        int32 (goid (Gs w cp) - 1) = goid (Gs w cp) - 1)).
Proof.
  unfold racemalloc, bind, load_curg. split.
  - intros H. now rewrite H.
  - intros cp H. rewrite H. split; [reflexivity | apply int32_exact].
Qed.

(** ** Identifiers at the bridge boundary *)

Lemma reported_ids_bracket (cs : list detcall) :
  reported_ids (bracket cs) = flat_map ids_of cs.
Proof.
  unfold reported_ids, bracket. cbn. f_equal.
  induction cs as [| c cs IH]; cbn; [reflexivity | now rewrite IH].
Qed.

(** Closes a goal [Forall P ids] where every identifier is visibly the
    externalisation of a member of [internal_ids]. *)
Ltac externalised :=
  cbn;
  repeat (apply Forall_cons;
          [eexists; split; [| reflexivity]; cbn; auto 10 |]);
  try apply Forall_nil.

(** Claim C9.  Task identifiers cross the bridge as the internal
    identifier minus one, converted to the detector's [int32].  TaskStart
    ([racegostart]) reports the parent as [g->goid - 1] and the child as
    the passed identifier minus one; TaskEnd ([racegoend]) reports the
    passed identifier minus one; and for every entry point of the bridge,
    every identifier found in a detector call it issues is [z - 1] for an
    internal identifier [z] the entry point had at hand.  The conversion
    changes nothing when [z - 1] is an [int32]. *)
Theorem identifiers_are_externalised
    (e : entry) (chgoid id pc : Z) (w : World) :
  trace_of (racegostart chgoid pc w) =
    [SetRacecall true;
     Det (GoStart (int32 (goid (curG w) - 1)) (int32 (chgoid - 1)) pc);
     SetRacecall false] /\
  trace_of (racegoend id w) =
    [SetRacecall true; Det (GoEnd (int32 (id - 1))); SetRacecall false] /\
  Forall (fun i => exists z, In z (internal_ids e w) /\ i = int32 (z - 1))
    (reported_ids (trace_of (enter e w))) /\
  (forall z, fits 32 (z - 1) -> int32 (z - 1) = z - 1).
Proof.
  split; [reflexivity|]. split; [reflexivity|].
  split; [| intros z; apply int32_exact].
  unfold internal_ids.
  destruct e; cbn [enter];
    unfold racewritepc, racereadpc, racewriterangepc, racereadrangepc,
      RaceAcquire, RaceRelease, RaceReleaseMerge, RaceRead, RaceWrite,
      raceacquire, racerelease, racereleasemerge;
    rewrite ?raceacquireg_run, ?racereleaseg_run, ?racereleasemergeg_run,
      ?racefuncenter_run;
    try match goal with |- context [raceignore (curG w) =? 0] =>
          destruct (raceignore (curG w) =? 0) end;
    try (destruct (tracked_dec addr w) as [Ht | Hu];
         [ rewrite ?racewrite_tracked, ?raceread_tracked,
             ?memoryaccess_tracked, ?rangeaccess_tracked by assumption
         | rewrite ?racewrite_untracked, ?raceread_untracked,
             ?memoryaccess_untracked, ?rangeaccess_untracked by assumption ]);
    unfold trace_of; cbn [snd]; rewrite ?reported_ids_bracket;
    unfold framed_calls, racefini, racemapshadow, racefuncexit, racemalloc,
      racefree, racegostart, racegoend, racefingo, RaceDisable, RaceEnable,
      bind, load_curg;
    repeat match goal with |- context [if ?c =? 0 then _ else _] =>
             destruct (c =? 0) end;
    try match goal with |- context [if ?b then Write _ _ _ else _] =>
          destruct b end;
    try match goal with |- context [if ?b then WriteRange _ _ _ _ _ else _] =>
          destruct b end;
    destruct (curg (m w)) as [cp |]; now externalised.
Qed.

(** ** Nesting of RaceDisable and RaceEnable *)

Lemma curG_set_raceignore (v : Z) (w : World) :
  curG (set_raceignore v w) = mkG (goid (curG w)) v.
Proof. unfold curG, set_raceignore. cbn. now rewrite Z.eqb_refl. Qed.

Lemma same_but_raceignore_refl (w : World) : same_but_raceignore w w.
Proof. repeat split. Qed.

Lemma same_but_raceignore_set (v : Z) (w : World) :
  same_but_raceignore w (set_raceignore v w).
Proof.
  repeat split; cbn; intros p.
  - now destruct (p =? g w).
  - intros Hp. apply Z.eqb_neq in Hp. now rewrite Hp.
Qed.

Lemma same_but_raceignore_trans (w1 w2 w3 : World) :
  same_but_raceignore w1 w2 -> same_but_raceignore w2 w3 ->
  same_but_raceignore w1 w3.
Proof.
  intros (Hg & Hm & Hh & Hi & Ho) (Hg' & Hm' & Hh' & Hi' & Ho').
  split; [congruence|]. split; [congruence|]. split; [congruence|]. split.
  - intros p. now rewrite Hi', Hi.
  - intros p Hp. rewrite Ho', Ho; congruence.
Qed.

Lemma toggle_run_eq (t : toggle) (w : World) :
  toggle_run t w =
    (tt, set_raceignore (sint ibits (raceignore (curG w) + balance [t])) w,
     []).
Proof. destruct t; reflexivity. Qed.

Lemma balance_calls (l : list toggle) :
  balance l = calls Disable l - calls Enable l.
Proof. induction l as [| [|] l IH]; cbn [balance calls]; lia. Qed.

Lemma balance_app (l1 l2 : list toggle) :
  balance (l1 ++ l2) = balance l1 + balance l2.
Proof. induction l1 as [| [|] l1 IH]; cbn [balance app]; lia. Qed.

Lemma balance_repeat_Disable (n : nat) :
  balance (repeat Disable n) = Z.of_nat n.
Proof. induction n as [| n IH]; cbn [balance repeat]; lia. Qed.

Lemma balance_repeat_Enable (n : nat) :
  balance (repeat Enable n) = - Z.of_nat n.
Proof. induction n as [| n IH]; cbn [balance repeat]; lia. Qed.

(** A sequence of toggles is silent, touches nothing but the counter of
    the running goroutine, and leaves it at the wrapped sum. *)
Lemma toggles_run (l : list toggle) (w : World) :
  sint ibits (raceignore (curG w)) = raceignore (curG w) ->
  trace_of (toggles l w) = [] /\
  same_but_raceignore w (world_of (toggles l w)) /\
  raceignore (curG (world_of (toggles l w))) =
    sint ibits (raceignore (curG w) + balance l).
Proof.
  revert w. induction l as [| t l IH]; intros w Hw.
  - cbn. rewrite Z.add_0_r, Hw.
    repeat split. 
  - cbn [toggles]. unfold bind. rewrite toggle_run_eq.
    set (w1 := set_raceignore _ w).
    assert (Hc : raceignore (curG w1) =
                 sint ibits (raceignore (curG w) + balance [t]))
      by (subst w1; now rewrite curG_set_raceignore).
    destruct (IH w1) as (Ht & Hs & Hv).
    { rewrite Hc. apply sint_idem. }
    destruct (toggles l w1) as [[u w2] t2].
    unfold trace_of, world_of in *. cbn [fst snd] in *. subst t2.
    split; [reflexivity|]. split.
    + eapply same_but_raceignore_trans; [| exact Hs].
      subst w1. apply same_but_raceignore_set.
    + rewrite Hv, Hc, sint_add. f_equal.
      change (t :: l) with ([t] ++ l). rewrite balance_app. ring.
Qed.

Lemma suppressed_when_ignoring (gp : gptr) (addr : Z) (w : World) :
  raceignore (curG w) <> 0 ->
  raceacquire addr w = (tt, w, []) /\
  racerelease addr w = (tt, w, []) /\
  racereleasemerge addr w = (tt, w, []) /\
  raceacquireg gp addr w = (tt, w, []) /\
  racereleaseg gp addr w = (tt, w, []) /\
  racereleasemergeg gp addr w = (tt, w, []).
Proof.
  intros H. unfold raceacquire, racerelease, racereleasemerge.
  rewrite !raceacquireg_run, !racereleaseg_run, !racereleasemergeg_run.
  apply Z.eqb_neq in H. rewrite H. repeat split.
Qed.

Lemma forwarded_when_not_ignoring (addr : Z) (w : World) :
  raceignore (curG w) = 0 ->
  trace_of (raceacquire addr w) =
    bracket [Acquire (int32 (goid (curG w) - 1)) addr] /\
  trace_of (racerelease addr w) =
    bracket [Release (int32 (goid (curG w) - 1)) addr] /\
  trace_of (racereleasemerge addr w) =
    bracket [ReleaseMerge (int32 (goid (curG w) - 1)) addr].
Proof.
  intros H. unfold raceacquire, racerelease, racereleasemerge.
  rewrite !raceacquireg_run, !racereleaseg_run, !racereleasemergeg_run.
  rewrite H. repeat split.
Qed.

Lemma goid_after_toggles (l : list toggle) (w : World) :
  sint ibits (raceignore (curG w)) = raceignore (curG w) ->
  goid (curG (world_of (toggles l w))) = goid (curG w).
Proof.
  intros Hw. destruct (toggles_run l w Hw) as (_ & (Hg & _ & _ & Hi & _) & _).
  unfold curG. now rewrite Hg, Hi.
Qed.

Lemma pow2_pred_pos : 0 < ibits -> 0 < 2 ^ (ibits - 1).
Proof. intros H. apply Z.pow_pos_nonneg; lia. Qed.

Lemma pow2_pred_ge_2 : 1 < ibits -> 2 <= 2 ^ (ibits - 1).
Proof.
  intros H. change 2 with (2 ^ 1) at 1. apply Z.pow_le_mono_r; lia.
Qed.

(** Claim C8.  Starting from a goroutine whose ignore counter is zero:
    after N >= 1 RaceDisable calls followed by N RaceEnable calls the
    counter is zero again and Acquire, Release and ReleaseMerge for that
    goroutine are forwarded, one detector call each, with its identifier
    minus one; after N RaceDisable calls and N - 1 RaceEnable calls the
    counter is positive and the three calls forward nothing.  The counter
    is a signed integer of [ibits] bits, [ibits] at least 2. *)
Theorem disable_enable_nesting (N : nat) (addr : Z) (w : World) :
  1 < ibits -> (1 <= N)%nat -> raceignore (curG w) = 0 ->
  let balanced :=
    world_of (toggles (repeat Disable N ++ repeat Enable N) w) in
  let pending :=
    world_of (toggles (repeat Disable N ++ repeat Enable (N - 1)) w) in
  (raceignore (curG balanced) = 0 /\
   trace_of (raceacquire addr balanced) =
     [SetRacecall true; Det (Acquire (int32 (goid (curG w) - 1)) addr);
      SetRacecall false] /\
   trace_of (racerelease addr balanced) =
     [SetRacecall true; Det (Release (int32 (goid (curG w) - 1)) addr);
      SetRacecall false] /\
   trace_of (racereleasemerge addr balanced) =
     [SetRacecall true; Det (ReleaseMerge (int32 (goid (curG w) - 1)) addr);
      SetRacecall false]) /\
  (0 < raceignore (curG pending) /\
   raceacquire addr pending = (tt, pending, []) /\
   racerelease addr pending = (tt, pending, []) /\
   racereleasemerge addr pending = (tt, pending, [])).
Proof.
  intros Hbits HN Hzero balanced pending.
  pose proof (pow2_pred_ge_2 Hbits) as Hp.
  assert (Hrep : sint ibits (raceignore (curG w)) = raceignore (curG w)).
  { rewrite Hzero. apply sint_fits; unfold fits; lia. }
  assert (Hb : raceignore (curG balanced) = 0).
  { subst balanced.
    destruct (toggles_run (repeat Disable N ++ repeat Enable N) w Hrep)
      as (_ & _ & Hv).
    rewrite Hv, Hzero, balance_app, balance_repeat_Disable,
      balance_repeat_Enable.
    replace (0 + (Z.of_nat N + - Z.of_nat N)) with 0 by lia.
    apply sint_fits; unfold fits; lia. }
  assert (Hq : raceignore (curG pending) = 1).
  { subst pending.
    destruct (toggles_run (repeat Disable N ++ repeat Enable (N - 1)) w Hrep)
      as (_ & _ & Hv).
    rewrite Hv, Hzero, balance_app, balance_repeat_Disable,
      balance_repeat_Enable.
    replace (0 + (Z.of_nat N + - Z.of_nat (N - 1))) with 1 by lia.
    apply sint_fits; unfold fits; lia. }
  split.
  - destruct (forwarded_when_not_ignoring addr balanced Hb) as (Ha & Hr & Hm).
    assert (Hid : goid (curG balanced) = goid (curG w))
      by (apply goid_after_toggles; exact Hrep).
    rewrite Hid in Ha, Hr, Hm. now repeat split.
  - assert (Hne : raceignore (curG pending) <> 0) by lia.
    destruct (suppressed_when_ignoring (g pending) addr pending Hne)
      as (Ha & Hr & Hm & _).
    repeat split; try assumption. lia.
Qed.

(** Claim C10.  Starting from a goroutine whose ignore counter is zero,
    any sequence of RaceDisable and RaceEnable calls with more RaceEnable
    than RaceDisable calls (the excess within the range of the counter's
    type) leaves the counter at exactly the negative difference: nothing
    clamps or checks it.  The suppression test is "counter non-zero", so
    Acquire, Release and ReleaseMerge, for the running goroutine or for
    any goroutine passed, still forward nothing. *)
Theorem enable_underflow_keeps_suppressing
    (l : list toggle) (gp : gptr) (addr : Z) (w : World) :
  0 < ibits -> raceignore (curG w) = 0 ->
  calls Disable l < calls Enable l ->
  calls Enable l - calls Disable l <= 2 ^ (ibits - 1) ->
  let w' := world_of (toggles l w) in
  raceignore (curG w') = calls Disable l - calls Enable l /\
  raceignore (curG w') < 0 /\
  raceacquire addr w' = (tt, w', []) /\
  racerelease addr w' = (tt, w', []) /\
  racereleasemerge addr w' = (tt, w', []) /\
  raceacquireg gp addr w' = (tt, w', []) /\
  racereleaseg gp addr w' = (tt, w', []) /\
  racereleasemergeg gp addr w' = (tt, w', []).
Proof.
  intros Hbits Hzero Hmore Hrange w'.
  pose proof (pow2_pred_pos Hbits) as Hp.
  assert (Hrep : sint ibits (raceignore (curG w)) = raceignore (curG w)).
  { rewrite Hzero. apply sint_fits; unfold fits; lia. }
  assert (Hv : raceignore (curG w') = calls Disable l - calls Enable l).
  { subst w'. destruct (toggles_run l w Hrep) as (_ & _ & Hv).
    rewrite Hv, Hzero, balance_calls, Z.add_0_l.
    apply sint_fits; unfold fits; lia. }
  split; [exact Hv|]. split; [lia|].
  apply suppressed_when_ignoring. lia.
Qed.

(** ** The shape of every entry point's run *)

Lemma detcalls_bracket (cs : list detcall) : detcalls (bracket cs) = cs.
Proof.
  unfold bracket. cbn.
  induction cs as [| c cs IH]; cbn; [reflexivity | now rewrite IH].
Qed.

Lemma guarded_bracket (flag : bool) (cs : list detcall) :
  guarded flag (bracket cs) = true.
Proof.
  unfold bracket. cbn.
  induction cs as [| c cs IH]; cbn; [reflexivity | exact IH].
Qed.

Lemma guarded_bracket_app (flag : bool) (cs : list detcall) (t : trace) :
  guarded flag (bracket cs ++ t) = guarded false t.
Proof.
  unfold bracket. cbn.
  induction cs as [| c cs IH]; cbn; [reflexivity | exact IH].
Qed.

Lemma raceinit_run (w : World) :
  raceinit w =
    (tt, set_racecall false w,
     bracket
       (Initialize
        :: (if uint ptrbits (mheap_addr - noptrdata) =? 0 then []
            else [MapShadow noptrdata (uint ptrbits (mheap_addr - noptrdata))])
        ++ (if uint ptrbits (enoptrbss - mheap_end) =? 0 then []
            else [MapShadow mheap_end (uint ptrbits (enoptrbss - mheap_end))]))).
Proof.
  unfold raceinit, bind.
  destruct (uint ptrbits (mheap_addr - noptrdata) =? 0);
    destruct (uint ptrbits (enoptrbss - mheap_end) =? 0); reflexivity.
Qed.

(** An entry point either is silent, and then leaves the machine alone
    but for the counter that RaceDisable and RaceEnable store, or it
    brackets its detector calls and leaves with the flag cleared. *)
Lemma enter_shape (e : entry) (w : World) :
  (trace_of (enter e w) = [] /\
   ((stores_raceignore e = false /\ world_of (enter e w) = w) \/
    (stores_raceignore e = true /\
     exists v, world_of (enter e w) = set_raceignore v w))) \/
  (detcalls (trace_of (enter e w)) <> [] /\
   trace_of (enter e w) = bracket (detcalls (trace_of (enter e w))) /\
   world_of (enter e w) = set_racecall false w).
Proof.
  destruct e; cbn [enter stores_raceignore];
    unfold racewritepc, racereadpc, racewriterangepc, racereadrangepc,
      RaceAcquire, RaceRelease, RaceReleaseMerge, RaceRead, RaceWrite,
      raceacquire, racerelease, racereleasemerge;
    rewrite ?raceacquireg_run, ?racereleaseg_run, ?racereleasemergeg_run,
      ?racefuncenter_run;
    try match goal with |- context [raceignore (curG w) =? 0] =>
          destruct (raceignore (curG w) =? 0) end;
    try (destruct (tracked_dec addr w) as [Ht | Hu];
         [ rewrite ?racewrite_tracked, ?raceread_tracked,
             ?memoryaccess_tracked, ?rangeaccess_tracked by assumption
         | rewrite ?racewrite_untracked, ?raceread_untracked,
             ?memoryaccess_untracked, ?rangeaccess_untracked by assumption ]);
    unfold racefini, racemapshadow, racefuncexit, racemalloc,
      racefree, racegostart, racegoend, racefingo, RaceDisable, RaceEnable,
      bind, load_curg;
    try (destruct (curg (m w)) as [cp |]);
    unfold trace_of, world_of; cbn [fst snd];
    rewrite ?detcalls_bracket; unfold framed_calls;
    repeat match goal with |- context [if ?c =? 0 then _ else _] =>
             destruct (c =? 0) end;
    try match goal with |- context [if ?b then Write _ _ _ else _] =>
          destruct b end;
    try match goal with |- context [if ?b then WriteRange _ _ _ _ _ else _] =>
          destruct b end;
    first
      [ right; split; [discriminate | split; reflexivity]
      | left; split; [reflexivity |];
        first [ left; split; reflexivity
              | right; split; [reflexivity | eexists; reflexivity] ] ].
Qed.

(** X1.  Whatever the flag was on entry, every detector call of every
    entry point, and of [raceinit], is made while [m->racecall] is true.
    An entry point that calls the detector returns with the flag false;
    one that does not call it makes no store to the flag at all. *)
Theorem detector_calls_are_guarded (e : entry) (w : World) :
  guarded (racecall (m w)) (trace_of (enter e w)) = true /\
  guarded (racecall (m w)) (trace_of (raceinit w)) = true /\
  (detcalls (trace_of (enter e w)) <> [] ->
     racecall (m (world_of (enter e w))) = false) /\
  (detcalls (trace_of (enter e w)) = [] ->
     trace_of (enter e w) = [] /\
     racecall (m (world_of (enter e w))) = racecall (m w)).
Proof.
  split; [| split; [| split]].
  - destruct (enter_shape e w) as [(Ht & _) | (_ & Ht & _)]; rewrite Ht.
    + reflexivity.
    + apply guarded_bracket.
  - rewrite raceinit_run. apply guarded_bracket.
  - intros Hc.
    destruct (enter_shape e w) as [(Ht & _) | (_ & _ & Hw)].
    + rewrite Ht in Hc. now elim Hc.
    + now rewrite Hw.
  - intros Hc.
    destruct (enter_shape e w)
      as [(Ht & [(_ & Hw) | (_ & v & Hw)]) | (Hne & _)].
    + now rewrite Hw.
    + now rewrite Hw.
    + contradiction.
Qed.

(** X2.  The entry points gathered in [entry], which are the functions of
    race.c from [racefini] to [RaceEnable] without the two semaphore
    wrappers [RaceSemacquire] and [RaceSemrelease]: none of them changes
    which goroutine is running, the heap bounds, [m->curg], the
    identifier of any goroutine, or any field of a goroutine other than
    the running one; and apart from RaceDisable and RaceEnable none
    changes any goroutine at all. *)
Theorem entry_points_frame (e : entry) (w : World) :
  g (world_of (enter e w)) = g w /\
  mheap (world_of (enter e w)) = mheap w /\
  curg (m (world_of (enter e w))) = curg (m w) /\
  (forall p, goid (Gs (world_of (enter e w)) p) = goid (Gs w p)) /\
  (forall p, p <> g w -> Gs (world_of (enter e w)) p = Gs w p) /\
  (stores_raceignore e = false ->
     forall p, Gs (world_of (enter e w)) p = Gs w p).
Proof.
  destruct (enter_shape e w)
    as [(_ & [(Hs & Hw) | (Hs & v & Hw)]) | (_ & _ & Hw)];
    rewrite Hw; repeat split; try reflexivity.
  - intros p. cbn. now destruct (p =? g w).
  - intros p Hp. cbn. apply Z.eqb_neq in Hp. now rewrite Hp.
  - congruence.
Qed.

(** X3.  Started with the flag false, any sequence of the entry points
    gathered in [entry] (race.c from [racefini] to [RaceEnable] without
    [RaceSemacquire] and [RaceSemrelease]) keeps every detector call
    inside a true flag and ends with the flag false. *)
Theorem flag_is_false_between_calls (es : list entry) (w : World) :
  racecall (m w) = false ->
  guarded false (trace_of (enter_all es w)) = true /\
  racecall (m (world_of (enter_all es w))) = false.
Proof.
  revert w. induction es as [| e es IH]; intros w Hf.
  - split; [reflexivity | exact Hf].
  - cbn [enter_all]. unfold bind.
    pose proof (enter_shape e w) as Hshape.
    destruct (enter e w) as [[u w1] t1].
    unfold trace_of, world_of in Hshape. cbn [fst snd] in Hshape.
    assert (Hf1 : racecall (m w1) = false).
    { destruct Hshape as [(_ & [(_ & Hw) | (_ & v & Hw)]) | (_ & _ & Hw)];
        subst w1; [exact Hf | exact Hf | reflexivity]. }
    destruct (IH w1 Hf1) as (Hg & Hr).
    destruct (enter_all es w1) as [[u2 w2] t2].
    unfold trace_of, world_of in *. cbn [fst snd] in *.
    split; [| exact Hr].
    destruct Hshape as [(Ht & _) | (_ & Ht & _)]; rewrite Ht.
    + exact Hg.
    + now rewrite guarded_bracket_app.
Qed.

(** ** How the access entry points relate *)

(** X4.  The exported RaceRead and RaceWrite, and the combined forms
    called without a caller pc, behave exactly as the plain probes: same
    result, same final machine, same trace. *)
Theorem exported_access_is_plain_probe (addr pc : Z) (w : World) :
  RaceRead addr pc w = raceread addr pc w /\
  RaceWrite addr pc w = racewrite addr pc w /\
  racereadpc addr 0 pc w = raceread addr pc w /\
  racewritepc addr 0 pc w = racewrite addr pc w.
Proof.
  unfold RaceRead, RaceWrite, racereadpc, racewritepc.
  destruct (tracked_dec addr w) as [Ht | Hu].
  - rewrite !memoryaccess_tracked, raceread_tracked, racewrite_tracked
      by assumption.
    repeat split.
  - rewrite !memoryaccess_untracked, raceread_untracked, racewrite_untracked
      by assumption.
    repeat split.
Qed.

(** X5.  A ranged access is the single-address access with Read and Write
    replaced by ReadRange and WriteRange carrying the size and the step:
    same gate, same FuncEnter and FuncExit, same final machine. *)
Theorem rangeaccess_mirrors_memoryaccess
    (addr size step callpc pc : Z) (write : bool) (w : World) :
  rangeaccess addr size step callpc pc write w =
    (tt, world_of (memoryaccess addr callpc pc write w),
     map (ranged size step) (trace_of (memoryaccess addr callpc pc write w))).
Proof.
  destruct (tracked_dec addr w) as [Ht | Hu].
  - rewrite memoryaccess_tracked, rangeaccess_tracked by assumption.
    unfold framed_calls, world_of, trace_of. cbn [fst snd].
    destruct (callpc =? 0); destruct (resolved_pc w 3 callpc =? 0);
      destruct write; reflexivity.
  - rewrite memoryaccess_untracked, rangeaccess_untracked by assumption.
    reflexivity.
Qed.

(** X6.  In the combined forms FuncEnter is left without its FuncExit in
    one case only: tracked address, non-zero caller pc, and a resolved
    caller pc that is null.  In every other case the two are issued in
    equal number. *)
Theorem funcexit_missing_only_on_null_resolution
    (addr size step callpc pc : Z) (write : bool) (w : World) :
  let tm := trace_of (memoryaccess addr callpc pc write w) in
  let tr := trace_of (rangeaccess addr size step callpc pc write w) in
  (tracked w addr /\ callpc <> 0 /\ resolved_pc w 3 callpc = 0 ->
     enters tm = 1 /\ exits tm = 0 /\ enters tr = 1 /\ exits tr = 0) /\
  (~ (tracked w addr /\ callpc <> 0 /\ resolved_pc w 3 callpc = 0) ->
     enters tm = exits tm /\ enters tr = exits tr).
Proof.
  intros tm tr. subst tm tr. split.
  - intros (Ht & Hc & Hr).
    rewrite memoryaccess_tracked, rangeaccess_tracked by assumption.
    unfold framed_calls. rewrite Hr.
    apply Z.eqb_neq in Hc. rewrite Hc.
    destruct write; repeat split.
  - intros Hn. destruct (tracked_dec addr w) as [Ht | Hu].
    + rewrite memoryaccess_tracked, rangeaccess_tracked by assumption.
      unfold framed_calls.
      destruct (Z.eqb_spec callpc 0) as [Hc | Hc].
      * destruct write; split; reflexivity.
      * destruct (Z.eqb_spec (resolved_pc w 3 callpc) 0) as [Hr | Hr].
        -- exfalso. apply Hn. now repeat split.
        -- destruct write; split; reflexivity.
    + rewrite memoryaccess_untracked, rangeaccess_untracked by assumption.
      split; reflexivity.
Qed.

(** ** The heap watermark *)

(** X7.  The classifier is monotone in the heap watermark: an address
    tracked under a watermark stays tracked under any larger one.  So a
    plain probe that reads a stale, smaller watermark either drops the
    access or forwards exactly what it would forward with the current
    one; it never forwards something else. *)
Theorem stale_watermark_only_drops (a pc u : Z) (w : World) :
  arena_used (mheap w) <= u ->
  (value_of (onstack a w) = false ->
     value_of (onstack a (set_arena_used u w)) = false) /\
  (trace_of (raceread a pc w) = [] \/
   trace_of (raceread a pc w) = trace_of (raceread a pc (set_arena_used u w)))
  /\
  (trace_of (racewrite a pc w) = [] \/
   trace_of (racewrite a pc w) =
     trace_of (racewrite a pc (set_arena_used u w))).
Proof.
  intros Hu.
  assert (Hmono : tracked w a -> tracked (set_arena_used u w) a).
  { unfold tracked. cbn. lia. }
  split; [| split].
  - intros H. apply onstack_false_iff. apply Hmono.
    now apply onstack_false_iff.
  - destruct (tracked_dec a w) as [Ht | Hn].
    + right. rewrite !raceread_tracked by auto. reflexivity.
    + left. now rewrite raceread_untracked.
  - destruct (tracked_dec a w) as [Ht | Hn].
    + right. rewrite !racewrite_tracked by auto. reflexivity.
    + left. now rewrite racewrite_untracked.
Qed.

(** ** Start-up *)

Lemma uint_small (z : Z) : 0 <= z < 2 ^ ptrbits -> uint ptrbits z = z.
Proof. intros H. unfold uint. now apply Z.mod_small. Qed.

Lemma mapshadow_in_bracket (addr size a1 s1 a2 s2 : Z) :
  In (Det (MapShadow addr size))
     (bracket
        (Initialize
         :: (if s1 =? 0 then [] else [MapShadow a1 s1])
         ++ (if s2 =? 0 then [] else [MapShadow a2 s2]))) <->
  (s1 <> 0 /\ addr = a1 /\ size = s1) \/ (s2 <> 0 /\ addr = a2 /\ size = s2).
Proof.
  unfold bracket.
  destruct (Z.eqb_spec s1 0) as [E1 | E1];
    destruct (Z.eqb_spec s2 0) as [E2 | E2]; cbn; split;
    intros H;
    repeat match goal with
           | H : _ \/ _ |- _ => destruct H as [H | H]
           | H : _ /\ _ |- _ => destruct H
           | H : False |- _ => destruct H
           | H : Det _ = Det _ |- _ => inversion H; subst; clear H
           | H : SetRacecall _ = Det _ |- _ => discriminate H
           end;
    subst; try contradiction; auto 10.
Qed.

(** X8.  With the static data laid out as noptrdata <= &runtime·mheap <=
    &runtime·mheap+1 <= enoptrbss and its extent within [uintptr],
    [raceinit] hands to MapShadow exactly the static data outside
    [runtime·mheap], never a range of size zero.  Every address it maps
    is one the classifier calls tracked; the addresses of
    [runtime·mheap] itself are tracked by the classifier but are given
    no shadow by [raceinit]. *)
Theorem raceinit_shadows_static_data_around_mheap (a : Z) (w : World) :
  noptrdata <= mheap_addr -> mheap_addr <= mheap_end ->
  mheap_end <= enoptrbss -> enoptrbss - noptrdata < 2 ^ ptrbits ->
  (shadowed (trace_of (raceinit w)) a <->
     noptrdata <= a < mheap_addr \/ mheap_end <= a < enoptrbss) /\
  (shadowed (trace_of (raceinit w)) a -> value_of (onstack a w) = false) /\
  (mheap_addr <= a < mheap_end ->
     value_of (onstack a w) = false /\
     ~ shadowed (trace_of (raceinit w)) a) /\
  (forall addr size,
     In (Det (MapShadow addr size)) (trace_of (raceinit w)) -> size <> 0).
Proof.
  intros H1 H2 H3 H4.
  rewrite raceinit_run. unfold trace_of. cbn [snd].
  rewrite (uint_small (mheap_addr - noptrdata)) by lia.
  rewrite (uint_small (enoptrbss - mheap_end)) by lia.
  assert (Hcover :
    shadowed
      (bracket
         (Initialize
          :: (if mheap_addr - noptrdata =? 0 then []
              else [MapShadow noptrdata (mheap_addr - noptrdata)])
          ++ (if enoptrbss - mheap_end =? 0 then []
              else [MapShadow mheap_end (enoptrbss - mheap_end)]))) a <->
    noptrdata <= a < mheap_addr \/ mheap_end <= a < enoptrbss).
  { unfold shadowed. split.
    - intros (addr & size & Hin & Hr).
      apply mapshadow_in_bracket in Hin.
      destruct Hin as [(_ & -> & ->) | (_ & -> & ->)]; lia.
    - intros [Hr | Hr].
      + exists noptrdata, (mheap_addr - noptrdata). split; [| lia].
        apply mapshadow_in_bracket. left. repeat split. lia.
      + exists mheap_end, (enoptrbss - mheap_end). split; [| lia].
        apply mapshadow_in_bracket. right. repeat split. lia. }
  split; [exact Hcover |]. split; [| split].
  - intros Hs. apply Hcover in Hs.
    apply onstack_false_iff. left. lia.
  - intros Hr. split.
    + apply onstack_false_iff. left. lia.
    + intros Hs. apply Hcover in Hs. lia.
  - intros addr size Hin. apply mapshadow_in_bracket in Hin.
    destruct Hin as [(Hne & _ & ->) | (Hne & _ & ->)]; exact Hne.
Qed.

(** ** RaceDisable and RaceEnable in any order *)

(** X9.  Any sequence of RaceDisable and RaceEnable calls is silent, and
    from a counter that fits its type it leaves the counter at the start
    value plus the number of RaceDisable calls minus the number of
    RaceEnable calls, wrapped to the counter's width; the order of the
    calls does not matter.  With as many calls of each kind the counter
    is back at its start value. *)
Theorem counter_depends_on_balance (l : list toggle) (w : World) :
  0 < ibits -> fits ibits (raceignore (curG w)) ->
  trace_of (toggles l w) = [] /\
  raceignore (curG (world_of (toggles l w))) =
    sint ibits (raceignore (curG w) + (calls Disable l - calls Enable l)) /\
  (calls Disable l = calls Enable l ->
     raceignore (curG (world_of (toggles l w))) = raceignore (curG w)).
Proof.
  intros Hb Hf.
  assert (Hrep : sint ibits (raceignore (curG w)) = raceignore (curG w))
    by (now apply sint_fits).
  destruct (toggles_run l w Hrep) as (Ht & _ & Hv).
  rewrite balance_calls in Hv.
  split; [exact Ht |]. split; [exact Hv |].
  intros Heq. rewrite Hv, Heq, Z.sub_diag, Z.add_0_r. exact Hrep.
Qed.

(** ** What the ignore counter does not influence *)

(** X10.  The ignore counter gates the synchronisation events only: for
    every entry point other than the Acquire, Release and ReleaseMerge
    family, the trace is the same whatever value the counter of the
    running goroutine has.  RaceDisable does not silence reads, writes,
    function entry and exit, allocation or goroutine start and end. *)
Theorem raceignore_gates_sync_only (e : entry) (v : Z) (w : World) :
  tests_raceignore e = false ->
  trace_of (enter e (set_raceignore v w)) = trace_of (enter e w).
Proof.
  intros He.
  destruct e; try discriminate He; cbn [enter];
    unfold racewritepc, racereadpc, racewriterangepc, racereadrangepc,
      RaceRead, RaceWrite;
    rewrite ?racefuncenter_run;
    try (destruct (tracked_dec addr w) as [Ht | Hu];
         [ assert (Ht' : tracked (set_raceignore v w) addr) by exact Ht;
           rewrite ?racewrite_tracked, ?raceread_tracked,
             ?memoryaccess_tracked, ?rangeaccess_tracked by assumption
         | assert (Hu' : ~ tracked (set_raceignore v w) addr) by exact Hu;
           rewrite ?racewrite_untracked, ?raceread_untracked,
             ?memoryaccess_untracked, ?rangeaccess_untracked by assumption ]);
    unfold racefini, racemapshadow, racefuncexit, racemalloc,
      racefree, racegostart, racegoend, racefingo, RaceDisable, RaceEnable,
      bind, load_curg, load_g, load_G, trace_of;
    rewrite ?curG_set_raceignore;
    try (destruct (curg (m w)) as [cp |] eqn:Ecp);
    cbn; rewrite ?Z.eqb_refl, ?Ecp; try reflexivity.
  (* racemalloc with a current goroutine *)
  cbn. destruct (cp =? g w); reflexivity.
Qed.

End Bridge.

(** ** The theorems at work on the sample machines

    Static data is [1024, 2048), [runtime·lessstack] is at 500, the ignore
    counter has 8 bits. *)

(** C4 on the samples: 4100 is in the arena, 1500 in the static data, 16
    and 8192 are in neither. *)
Lemma onstack_is_pure_range_test_witness :
  value_of (onstack 1024 2048 4100 sample_world) = false /\
  value_of (onstack 1024 2048 1500 sample_world) = false /\
  value_of (onstack 1024 2048 16 sample_world) = true /\
  value_of (onstack 1024 2048 8192 sample_world) = true.
Proof.
  split; [| split; [| split]].
  - apply (proj1 (proj2 (proj2 (onstack_is_pure_range_test
                                  1024 2048 4100 sample_world)))).
    right. cbn. lia.
  - apply (proj1 (proj2 (proj2 (onstack_is_pure_range_test
                                  1024 2048 1500 sample_world)))).
    left. lia.
  - apply (proj2 (proj2 (proj2 (onstack_is_pure_range_test
                                  1024 2048 16 sample_world)))).
    cbn. lia.
  - apply (proj2 (proj2 (proj2 (onstack_is_pure_range_test
                                  1024 2048 8192 sample_world)))).
    cbn. lia.
Defined.

(** C1 on the samples: a read in the arena by goroutine 3 is one Read
    with identifier 2; a write below the static data does nothing. *)
Lemma read_write_probe_witness :
  trace_of (raceread 1024 2048 4100 77 sample_world) =
    [SetRacecall true; Det (Read 2 4100 77); SetRacecall false] /\
  racewrite 1024 2048 16 77 sample_world = (tt, sample_world, []).
Proof.
  split.
  - destruct (proj2 (read_write_probe 1024 2048 4100 77 sample_world)
                eq_refl) as (H & _).
    exact H.
  - destruct (proj1 (read_write_probe 1024 2048 16 77 sample_world)
                eq_refl) as (_ & H).
    exact H.
Defined.

(** C2 fails on the code: with the in-bridge flag already true, a read of
    a tracked address still reaches the detector. *)
Lemma reentrant_read_is_forwarded :
  racecall (m busy_world) = true /\
  detcalls (trace_of (raceread 1024 2048 4100 77 busy_world)) =
    [Read 2 4100 77] /\
  detcalls (trace_of (raceread 1024 2048 4100 77 busy_world)) <> [].
Proof. repeat split. discriminate. Qed.

(** C2 as amended, on the busy sample. *)
Lemma probes_do_not_read_racecall_witness :
  detcalls (trace_of (racewrite 1024 2048 4100 77 busy_world)) =
    [Write 2 4100 77] /\
  racecall (m (world_of (racewrite 1024 2048 4100 77 busy_world))) = false.
Proof.
  assert (Ht : tracked 1024 2048 busy_world 4100) by (right; cbn; lia).
  destruct (proj2 (proj2 (proj2 (proj2
              (probes_do_not_read_racecall 1024 2048 500 sample_callers
                 true 4100 8 1 0 77 true busy_world)))) eq_refl Ht)
    as (_ & Hw & _ & _ & _ & Hf & _).
  split; [exact Hw | exact Hf].
Defined.

(** C3 fails on the code when the goroutine passed is not the running
    one.  Goroutine 7 has a positive counter, yet an Acquire made for it
    from goroutine 3 is forwarded; goroutine 3 has a zero counter, yet an
    Acquire made for it from goroutine 7 is dropped. *)
Lemma sync_gate_reads_running_goroutine :
  (0 < raceignore (Gs sample_world 200) /\
   detcalls (trace_of (raceacquireg 200 4096 sample_world)) =
     [Acquire 6 4096]) /\
  (raceignore (Gs ignoring_world 100) = 0 /\
   detcalls (trace_of (raceacquireg 100 4096 ignoring_world)) = []).
Proof. repeat split. Qed.

(** C3 as amended, on the samples. *)
Lemma sync_events_gated_by_running_goroutine_witness :
  trace_of (racereleaseg 200 4096 sample_world) =
    [SetRacecall true; Det (Release 6 4096); SetRacecall false] /\
  racereleasemergeg 100 4096 ignoring_world = (tt, ignoring_world, []).
Proof.
  split.
  - destruct (proj1 (proj2 (sync_events_gated_by_running_goroutine
                              200 4096 sample_world)) eq_refl)
      as (_ & H & _).
    exact H.
  - assert (Hne : raceignore (curG ignoring_world) <> 0) by discriminate.
    destruct (proj1 (sync_events_gated_by_running_goroutine
                       100 4096 ignoring_world) Hne) as (_ & _ & H).
    exact H.
Defined.

(** C5 on the samples: a pc equal to [lessstack] is replaced by the
    walker's answer, an ordinary pc is kept. *)
Lemma caller_pc_resolved_before_forwarding_witness :
  trace_of (racefuncenter 500 sample_callers 500 sample_world) =
    [SetRacecall true; Det (FuncEnter 2 602); SetRacecall false] /\
  trace_of (racefuncenter 500 sample_callers 900 sample_world) =
    [SetRacecall true; Det (FuncEnter 2 900); SetRacecall false] /\
  hd_error
    (detcalls
       (trace_of
          (memoryaccess 1024 2048 500 sample_callers 4100 5000 77 false
             sample_world))) =
    Some (FuncEnter 2 603) /\
  hd_error
    (detcalls
       (trace_of
          (rangeaccess 1024 2048 500 sample_callers 4100 8 1 900 77 true
             sample_world))) =
    Some (FuncEnter 2 900).
Proof.
  assert (Ht : tracked 1024 2048 sample_world 4100) by (right; cbn; lia).
  split; [| split; [| split]].
  - apply (proj1 (caller_pc_resolved_before_forwarding 1024 2048 500
                    sample_callers 500 4100 8 1 5000 77 false sample_world)).
    left. reflexivity.
  - apply (proj1 (proj2 (caller_pc_resolved_before_forwarding 1024 2048 500
                    sample_callers 900 4100 8 1 5000 77 false sample_world))).
    cbn. lia.
  - apply (proj1 (proj2 (proj2 (caller_pc_resolved_before_forwarding
                    1024 2048 500 sample_callers 500 4100 8 1 5000 77 false
                    sample_world)))).
    + exact Ht.
    + discriminate.
    + right. cbn. lia.
  - apply (proj2 (proj2 (proj2 (caller_pc_resolved_before_forwarding
                    1024 2048 500 sample_callers 500 4100 8 1 900 77 true
                    sample_world)))).
    + exact Ht.
    + discriminate.
    + cbn. lia.
Defined.



(** C7 on the samples: [m->curg] nil, no call; [m->curg] goroutine 5,
    one Malloc with identifier 4, although address 16 is not tracked. *)
Lemma malloc_hook_witness :
  racemalloc 8192 64 77 early_world = (tt, early_world, []) /\
  trace_of (racemalloc 16 64 77 sample_world) =
    [SetRacecall true; Det (Malloc 4 16 64 77); SetRacecall false].
Proof.
  split.
  - apply (proj1 (malloc_hook 8192 64 77 early_world)). reflexivity.
  - destruct (proj2 (malloc_hook 16 64 77 sample_world) 300 eq_refl)
      as (H & _).
    now rewrite H.
Defined.

(** C8 on the samples: two RaceDisable and two RaceEnable calls let a
    Release through; two RaceDisable and one RaceEnable do not. *)
Lemma disable_enable_nesting_witness :
  trace_of
    (racerelease 4096
       (world_of
          (toggles 8 (repeat Disable 2 ++ repeat Enable 2) sample_world))) =
    [SetRacecall true; Det (Release 2 4096); SetRacecall false] /\
  trace_of
    (racerelease 4096
       (world_of
          (toggles 8 (repeat Disable 2 ++ repeat Enable (2 - 1))
             sample_world))) = [].
Proof.
  assert (Hb : 1 < 8) by reflexivity.
  assert (HN : (1 <= 2)%nat) by (repeat constructor).
  destruct (disable_enable_nesting 8 2 4096 sample_world Hb HN eq_refl)
    as ((_ & _ & Hr & _) & (_ & _ & Hs & _)).
  split; [exact Hr | now rewrite Hs].
Defined.

(** C9 on the samples: goroutine 3 starting goroutine 9 is reported as
    GoStart 2 8, and the identifier of the Malloc attributed to goroutine
    5 is externalised. *)
Lemma identifiers_are_externalised_witness :
  trace_of (racegostart 9 77 sample_world) =
    [SetRacecall true; Det (GoStart 2 8 77); SetRacecall false] /\
  trace_of (racegoend 9 sample_world) =
    [SetRacecall true; Det (GoEnd 8); SetRacecall false] /\
  int32 (9 - 1) = 9 - 1.
Proof.
  destruct (identifiers_are_externalised 1024 2048 500 sample_callers 8
              (E_racemalloc 16 64 77) 9 9 77 sample_world)
    as (Hs & He & _ & Hx).
  split; [exact Hs|]. split; [exact He|].
  apply Hx. unfold fits. cbn. lia.
Defined.

(** C10 on the samples: one RaceDisable and two RaceEnable calls leave
    the counter at -1 and an Acquire is still dropped. *)
Lemma enable_underflow_keeps_suppressing_witness :
  raceignore
    (curG (world_of (toggles 8 [Disable; Enable; Enable] sample_world)))
    = -1 /\
  trace_of
    (raceacquire 4096
       (world_of (toggles 8 [Disable; Enable; Enable] sample_world))) = [].
Proof.
  assert (Hb : 0 < 8) by reflexivity.
  assert (Hm : calls Disable [Disable; Enable; Enable]
               < calls Enable [Disable; Enable; Enable]) by reflexivity.
  assert (Hr : calls Enable [Disable; Enable; Enable]
               - calls Disable [Disable; Enable; Enable] <= 2 ^ (8 - 1))
    by (cbn; lia).
  destruct (enable_underflow_keeps_suppressing 8 [Disable; Enable; Enable]
              200 4096 sample_world Hb eq_refl Hm Hr)
    as (Hv & _ & Ha & _).
  split; [exact Hv | now rewrite Ha].
Defined.

(** The end-to-end scenario of goroutine 3: Acquire is forwarded, after
    RaceDisable a Release is dropped, after RaceEnable a Release is
    forwarded with identifier 2 and address 4096. *)
Example scenario_acquire_disable_release :
  let run :=
    (raceacquire 4096 ;; RaceDisable 8 ;; racerelease 4096 ;;
     RaceEnable 8 ;; racerelease 4096) sample_world in
  detcalls (trace_of run) = [Acquire 2 4096; Release 2 4096].
Proof. reflexivity. Qed.

(** ** The further theorems on the sample machines *)

(** X1 on the samples: a read in the arena entered with the flag true
    leaves it false; a read outside every tracked range stores nothing. *)
Lemma detector_calls_are_guarded_witness :
  racecall
    (m (world_of
          (enter 1024 2048 500 sample_callers 8 (E_raceread 4100 77)
             busy_world))) = false /\
  trace_of
    (enter 1024 2048 500 sample_callers 8 (E_raceread 16 77) busy_world) = [].
Proof.
  split.
  - apply (proj1 (proj2 (proj2 (detector_calls_are_guarded 1024 2048 500
                    sample_callers 8 1200 1600 64 (E_raceread 4100 77)
                    busy_world)))).
    discriminate.
  - apply (proj2 (proj2 (proj2 (detector_calls_are_guarded 1024 2048 500
                    sample_callers 8 1200 1600 64 (E_raceread 16 77)
                    busy_world)))).
    reflexivity.
Defined.

(** X2 on the samples: RaceDisable by goroutine 3 leaves goroutine 7 as it
    was, and a read leaves every goroutine as it was. *)
Lemma entry_points_frame_witness :
  Gs (world_of (enter 1024 2048 500 sample_callers 8 E_RaceDisable
                  sample_world)) 200 = Gs sample_world 200 /\
  Gs (world_of (enter 1024 2048 500 sample_callers 8 (E_raceread 4100 77)
                  sample_world)) 100 = Gs sample_world 100.
Proof.
  split.
  - destruct (entry_points_frame 1024 2048 500 sample_callers 8
                E_RaceDisable sample_world) as (_ & _ & _ & _ & H & _).
    apply H. discriminate.
  - destruct (entry_points_frame 1024 2048 500 sample_callers 8
                (E_raceread 4100 77) sample_world)
      as (_ & _ & _ & _ & _ & H).
    apply H. reflexivity.
Defined.

(** X3 on the samples: five calls in a row. *)
Lemma flag_is_false_between_calls_witness :
  racecall
    (m (world_of
          (enter_all 1024 2048 500 sample_callers 8
             [E_raceacquire 4096; E_RaceDisable; E_racerelease 4096;
              E_RaceEnable; E_racewritepc 4100 500 77]
             sample_world))) = false.
Proof.
  apply (flag_is_false_between_calls 1024 2048 500 sample_callers 8
           [E_raceacquire 4096; E_RaceDisable; E_racerelease 4096;
            E_RaceEnable; E_racewritepc 4100 500 77] sample_world).
  reflexivity.
Defined.

(** X6 on the samples: with the walker that finds a null pc FuncExit is
    missing; with the sample walker FuncEnter and FuncExit pair up. *)
Lemma funcexit_missing_only_on_null_resolution_witness :
  exits
    (trace_of
       (memoryaccess 1024 2048 500 null_callers 4100 500 77 true
          sample_world)) = 0 /\
  enters
    (trace_of
       (memoryaccess 1024 2048 500 sample_callers 4100 500 77 true
          sample_world)) =
  exits
    (trace_of
       (memoryaccess 1024 2048 500 sample_callers 4100 500 77 true
          sample_world)).
Proof.
  assert (Ht : tracked 1024 2048 sample_world 4100) by (right; cbn; lia).
  split.
  - assert (Hc : (500 : Z) <> 0) by discriminate.
    destruct (proj1 (funcexit_missing_only_on_null_resolution 1024 2048 500
                       null_callers 4100 8 1 500 77 true sample_world)
                (conj Ht (conj Hc eq_refl))) as (_ & H & _).
    exact H.
  - assert (Hn : ~ (tracked 1024 2048 sample_world 4100 /\ (500 : Z) <> 0 /\
                    resolved_pc 500 sample_callers sample_world 3 500 = 0))
      by (intros (_ & _ & H); discriminate H).
    destruct (proj2 (funcexit_missing_only_on_null_resolution 1024 2048 500
                       sample_callers 4100 8 1 500 77 true sample_world) Hn)
      as (H & _).
    exact H.
Defined.

(** X7 on the samples: an address tracked with the watermark at 8192 is
    tracked with the watermark at 16384. *)
Lemma stale_watermark_only_drops_witness :
  value_of (onstack 1024 2048 4100 (set_arena_used 16384 sample_world)) =
    false.
Proof.
  assert (Hu : arena_used (mheap sample_world) <= 16384) by (cbn; lia).
  destruct (stale_watermark_only_drops 1024 2048 4100 77 16384 sample_world
              Hu) as (H & _).
  apply H. reflexivity.
Defined.

(** X8 on the samples: static data [1024, 2048) with [runtime·mheap] at
    [1200, 1600): address 1100 is given shadow, address 1300 is not. *)
Lemma raceinit_shadows_static_data_around_mheap_witness :
  shadowed (trace_of (raceinit 1024 2048 1200 1600 64 sample_world)) 1100 /\
  ~ shadowed (trace_of (raceinit 1024 2048 1200 1600 64 sample_world)) 1300.
Proof.
  assert (H1 : 1024 <= 1200) by lia.
  assert (H2 : 1200 <= 1600) by lia.
  assert (H3 : 1600 <= 2048) by lia.
  assert (H4 : 2048 - 1024 < 2 ^ 64) by (cbn; lia).
  split.
  - destruct (raceinit_shadows_static_data_around_mheap 1024 2048 1200 1600
                64 1100 sample_world H1 H2 H3 H4) as (H & _).
    apply H. left. lia.
  - destruct (raceinit_shadows_static_data_around_mheap 1024 2048 1200 1600
                64 1300 sample_world H1 H2 H3 H4) as (_ & _ & H & _).
    apply H. lia.
Defined.

(** X9 on the samples: two interleaved pairs on an 8-bit counter. *)
Lemma counter_depends_on_balance_witness :
  raceignore
    (curG
       (world_of
          (toggles 8 [Disable; Enable; Enable; Disable] sample_world))) = 0.
Proof.
  assert (Hb : 0 < 8) by reflexivity.
  assert (Hf : fits 8 (raceignore (curG sample_world)))
    by (unfold fits; cbn; lia).
  destruct (counter_depends_on_balance 8 [Disable; Enable; Enable; Disable]
              sample_world Hb Hf) as (_ & _ & H).
  apply H. reflexivity.
Defined.

(** X10 on the samples: a write in the arena is forwarded by a goroutine
    whose counter is 5 as by one whose counter is 0. *)
Lemma raceignore_gates_sync_only_witness :
  trace_of
    (enter 1024 2048 500 sample_callers 8 (E_racewrite 4100 77)
       (set_raceignore 5 sample_world)) =
  [SetRacecall true; Det (Write 2 4100 77); SetRacecall false].
Proof.
  rewrite (raceignore_gates_sync_only 1024 2048 500 sample_callers 8
             (E_racewrite 4100 77) 5 sample_world eq_refl).
  reflexivity.
Defined.
